(** * Family tree manager: relationship validation and tree assembly

    A shallow embedding of the server handlers (server/src/handlers) over a
    list model of the two Postgres tables (server/src/db/schema.ts), and of
    the tree assembler of the client's FamilyTree component, followed by the
    properties of the specification that concern them.

    Conventions.  A JavaScript [number] holding an id or a tree level is a
    [Z]; a [Date] is its millisecond count, a [Z]; a nullable column is an
    [option]; a thrown [Error] is the [Throw] outcome of the [Result] monad;
    [new Date()] and the column default [defaultNow()] read a clock that the
    handlers receive as the argument [now]. *)

From Stdlib Require Import String DecimalString.
From Stdlib Require Import ZArith List Bool Lia Permutation.
Import ListNotations.
Open Scope Z_scope.

Set Warnings "-register-all".

(** ** Data model *)

Definition Date := Z.

(** [personSchema] of schema.ts, a row of [peopleTable]. *)
Record Person := mkPerson {
  id : Z;
  full_name : string;
  birth_date : option Date;
  death_date : option Date;
  photo_url : option string;
  created_at : Date;
  updated_at : Date
}.

(** [relationshipSchema] of schema.ts, a row of [relationshipsTable]; its
    [id] and [created_at] columns carry the prefix [rel_]. *)
Record Relationship := mkRelationship {
  rel_id : Z;
  parent_id : Z;
  child_id : Z;
  rel_created_at : Date
}.

(** [personWithRelationshipsSchema]: the columns of a person (the spread
    [...person], kept together as [base]) with the two resolved lists. *)
Record PersonWithRelationships := mkPersonWithRelationships {
  base : Person;
  parents : list Person;
  children : list Person
}.

(** [createPersonInputSchema]. *)
Record CreatePersonInput := mkCreatePersonInput {
  cp_full_name : string;
  cp_birth_date : option Date;
  cp_death_date : option Date;
  cp_photo_url : option string
}.

(** [updatePersonInputSchema]: an optional field is [None] when it is
    [undefined]; a nullable optional field is [Some None] when it is [null]. *)
Record UpdatePersonInput := mkUpdatePersonInput {
  up_id : Z;
  up_full_name : option string;
  up_birth_date : option (option Date);
  up_death_date : option (option Date);
  up_photo_url : option (option string)
}.

(** [createRelationshipInputSchema] and [deleteRelationshipInputSchema] have
    the same shape. *)
Record RelationshipInput := mkRelationshipInput {
  in_parent_id : Z;
  in_child_id : Z
}.

(** ** Failures

    One constructor per [throw new Error(...)] of the handlers, named after
    the failure signals of the specification; [message] is the text thrown. *)

Inductive Error :=
| SelfRelationship
| ParentNotFound (parent : Z)
| ChildNotFound (child : Z)
| DuplicateRelationship
| CircularRelationship
| PersonNotFound (person : Z)
| TreeChildNotFound (child : Z)
| TreeParentNotFound (parent : Z).

Definition string_of_Z (z : Z) : string := NilZero.string_of_int (Z.to_int z).

Definition message (e : Error) : string :=
  (match e with
  | SelfRelationship => "A person cannot be their own parent"
  | ParentNotFound i => "Parent with ID " ++ string_of_Z i ++ " does not exist"
  | ChildNotFound i => "Child with ID " ++ string_of_Z i ++ " does not exist"
  | DuplicateRelationship => "Relationship already exists between these people"
  | CircularRelationship => "Cannot create circular parent-child relationship"
  | PersonNotFound i => "Person with id " ++ string_of_Z i ++ " not found"
  | TreeChildNotFound i => "Child with id " ++ string_of_Z i ++ " not found"
  | TreeParentNotFound i => "Parent with id " ++ string_of_Z i ++ " not found"
  end)%string.

Inductive Result (A : Type) :=
| Ok (a : A)
| Throw (e : Error).

Arguments Ok {A} a.
Arguments Throw {A} e.

Definition bind {A B} (m : Result A) (k : A -> Result B) : Result B :=
  match m with
  | Ok a => k a
  | Throw e => Throw e
  end.

Notation "x <- m ;; k" := (bind m (fun x => k))
  (at level 61, m at next level, right associativity).

(** [xs.map(f)] where [f] may throw: the first failure, in list order, ends
    the whole map. *)
Fixpoint mapR {A B} (f : A -> Result B) (xs : list A) : Result (list B) :=
  match xs with
  | [] => Ok []
  | x :: xs' =>
      y <- f x ;;
      ys <- mapR f xs' ;;
      Ok (y :: ys)
  end.

(** ** The database

    The two tables, each as the list of its rows in the order in which a
    [select] without [where] reads them, and the two [serial] sequences.  An
    inserted row is read last; so is an updated row, which the database
    writes anew.  SQL promises no order: what is said below of a table after
    an update is said up to the order of its rows. *)

Record Database := mkDatabase {
  people : list Person;
  relationships : list Relationship;
  people_id_seq : Z;
  relationships_id_seq : Z
}.

Definition emptyDB : Database := mkDatabase [] [] 1 1.

(** The values of an [integer] column.  Both [id] columns and the two
    reference columns have this type, and the queries below compare them with
    numbers of the input.  The lists model these queries for numbers of the
    column's range; for a number outside it the database refuses the
    comparison and the handler rethrows that error, which is no outcome of
    the model.  What is stated of ids and pairs that are not stored is
    therefore stated for numbers in [int4]. *)
Definition int4 (i : Z) : Prop := -2147483648 <= i <= 2147483647.

(** [db.select().from(peopleTable).where(eq(peopleTable.id, i))], for [i]
    in [int4]. *)
Definition select_person (db : Database) (i : Z) : list Person :=
  filter (fun p => id p =? i) (people db).

(** [db.select().from(relationshipsTable).where(and(eq(parent_id, p),
    eq(child_id, c)))], for [p] and [c] in [int4]. *)
Definition select_relationship (db : Database) (p c : Z) : list Relationship :=
  filter (fun r => (parent_id r =? p) && (child_id r =? c)) (relationships db).

(** [db.insert(peopleTable).values(...).returning()]: the row gets the next
    value of the sequence and both timestamps default to the clock. *)
Definition insert_person (now : Date) (input : CreatePersonInput)
    (db : Database) : Database * Person :=
  let row := mkPerson (people_id_seq db) (cp_full_name input)
               (cp_birth_date input) (cp_death_date input)
               (cp_photo_url input) now now in
  (mkDatabase (people db ++ [row]) (relationships db)
     (people_id_seq db + 1) (relationships_id_seq db), row).

(** [db.insert(relationshipsTable).values({parent_id, child_id}).returning()]:
    the row gets the next value of the sequence and the clock as
    [created_at]. *)
Definition insert_relationship (now : Date) (p c : Z)
    (db : Database) : Database * Relationship :=
  let row := mkRelationship (relationships_id_seq db) p c now in
  (mkDatabase (people db) (relationships db ++ [row])
     (people_id_seq db) (relationships_id_seq db + 1), row).

(** [db.delete(peopleTable).where(eq(peopleTable.id, i))], for [i] in
    [int4]; both references of [relationshipsTable] are declared
    [onDelete: 'cascade'], so the rows that name a deleted person go with
    it. *)
Definition delete_person (i : Z) (db : Database) : Database :=
  mkDatabase
    (filter (fun p => negb (id p =? i)) (people db))
    (filter (fun r => negb (parent_id r =? i) && negb (child_id r =? i))
       (relationships db))
    (people_id_seq db) (relationships_id_seq db).

(** [db.delete(relationshipsTable).where(and(...))], for a pair in [int4]:
    the new state and the [rowCount] of the result ([null] for statements
    that count no rows). *)
Definition delete_relationship (p c : Z) (db : Database)
    : Database * option Z :=
  let hit := fun r => (parent_id r =? p) && (child_id r =? c) in
  (mkDatabase (people db)
     (filter (fun r => negb (hit r)) (relationships db))
     (people_id_seq db) (relationships_id_seq db),
   Some (Z.of_nat (length (filter hit (relationships db))))).

(** The object [updateData] of [updatePerson]: a column is present when it
    was assigned. *)
Record UpdateData := mkUpdateData {
  ud_full_name : option string;
  ud_birth_date : option (option Date);
  ud_death_date : option (option Date);
  ud_photo_url : option (option string);
  ud_updated_at : option Date
}.

Definition set_columns (u : UpdateData) (p : Person) : Person :=
  mkPerson (id p)
    (match ud_full_name u with Some v => v | None => full_name p end)
    (match ud_birth_date u with Some v => v | None => birth_date p end)
    (match ud_death_date u with Some v => v | None => death_date p end)
    (match ud_photo_url u with Some v => v | None => photo_url p end)
    (created_at p)
    (match ud_updated_at u with Some v => v | None => updated_at p end).

(** [db.update(peopleTable).set(u).where(eq(peopleTable.id, i)).returning()],
    for [i] in [int4]: the new state and the rows that were updated.  The
    rows that were not touched keep their order and the updated rows are
    read after them. *)
Definition update_person (u : UpdateData) (i : Z) (db : Database)
    : Database * list Person :=
  let updated :=
    map (set_columns u) (filter (fun p => id p =? i) (people db)) in
  (mkDatabase
     (filter (fun p => negb (id p =? i)) (people db) ++ updated)
     (relationships db) (people_id_seq db) (relationships_id_seq db),
   updated).

(** [from(l).innerJoin(r, on)]: the pairs of rows that satisfy [on].  SQL
    fixes no order for them; the properties below hold for any order. *)
Definition innerJoin {A B} (l : list A) (r : list B) (on : A -> B -> bool)
    : list (A * B) :=
  flat_map (fun a => map (pair a) (filter (on a) r)) l.

(** ** Handlers (server/src/handlers)

    A handler takes the clock (when it reads it), its input and the database,
    and returns its value with the new database, or throws.  The
    [try { ... } catch (error) { console.error(...); throw error; }] around
    each body rethrows what it caught and is left out. *)

(** [createPerson]. *)
Definition createPerson (now : Date) (input : CreatePersonInput)
    (db : Database) : Result (Database * Person) :=
  Ok (insert_person now input db).

(** [getPeople]. *)
Definition getPeople (db : Database) : list Person := people db.

(** The object literal [{ id: result.id, ..., updated_at: result.updated_at }]
    that [getPerson] builds from each joined row. *)
Definition copy_person (result : Person) : Person :=
  mkPerson (id result) (full_name result) (birth_date result)
    (death_date result) (photo_url result) (created_at result)
    (updated_at result).

(** [getPerson]; the input object has the single field [id], and [null] is
    [None]. *)
Definition getPerson (input_id : Z) (db : Database)
    : option PersonWithRelationships :=
  match select_person db input_id with
  | [] => None
  | person :: _ =>
      let parentResults :=
        map fst
          (filter (fun row => child_id (snd row) =? input_id)
             (innerJoin (people db) (relationships db)
                (fun p r => id p =? parent_id r))) in
      let childResults :=
        map fst
          (filter (fun row => parent_id (snd row) =? input_id)
             (innerJoin (people db) (relationships db)
                (fun p r => id p =? child_id r))) in
      Some (mkPersonWithRelationships (copy_person person)
              (map copy_person parentResults)
              (map copy_person childResults))
  end.

(** [createRelationship]. *)
Definition createRelationship (now : Date) (input : RelationshipInput)
    (db : Database) : Result (Database * Relationship) :=
  if in_parent_id input =? in_child_id input then Throw SelfRelationship
  else
    let parent := select_person db (in_parent_id input) in
    let child := select_person db (in_child_id input) in
    if Nat.eqb (length parent) 0 then
      Throw (ParentNotFound (in_parent_id input))
    else if Nat.eqb (length child) 0 then
      Throw (ChildNotFound (in_child_id input))
    else
      let existingRelationship :=
        select_relationship db (in_parent_id input) (in_child_id input) in
      if Nat.ltb 0 (length existingRelationship) then
        Throw DuplicateRelationship
      else
        let circularCheck :=
          select_relationship db (in_child_id input) (in_parent_id input) in
        if Nat.ltb 0 (length circularCheck) then Throw CircularRelationship
        else
          Ok (insert_relationship now (in_parent_id input)
                (in_child_id input) db).

(** [deleteRelationship]: the returned boolean is the field [success]. *)
Definition deleteRelationship (input : RelationshipInput) (db : Database)
    : Result (Database * bool) :=
  let '(db', rowCount) :=
    delete_relationship (in_parent_id input) (in_child_id input) db in
  let success :=
    match rowCount with
    | Some n => 0 <? n
    | None => false
    end in
  Ok (db', success).

(** [deletePerson]: the returned boolean is the field [success]. *)
Definition deletePerson (input_id : Z) (db : Database)
    : Result (Database * bool) :=
  let existingPerson := select_person db input_id in
  if Nat.eqb (length existingPerson) 0 then Throw (PersonNotFound input_id)
  else Ok (delete_person input_id db, true).

(** [updatePerson]; [result[0]] is [undefined], here [None], on an empty
    result. *)
Definition updatePerson (now : Date) (input : UpdatePersonInput)
    (db : Database) : Result (Database * option Person) :=
  let existingPerson := select_person db (up_id input) in
  if Nat.eqb (length existingPerson) 0 then
    Throw (PersonNotFound (up_id input))
  else
    let updateData :=
      mkUpdateData (up_full_name input) (up_birth_date input)
        (up_death_date input) (up_photo_url input) (Some now) in
    let '(db', result) := update_person updateData (up_id input) db in
    Ok (db', hd_error result).

(** [getFamilyTree]. *)
Definition getFamilyTree (db : Database)
    : Result (list PersonWithRelationships) :=
  let allPeople := people db in
  let allRelationships := relationships db in
  mapR (fun person =>
      let childRelationships :=
        filter (fun rel => parent_id rel =? id person) allRelationships in
      let parentRelationships :=
        filter (fun rel => child_id rel =? id person) allRelationships in
      children <-
        mapR (fun rel =>
            match find (fun p => id p =? child_id rel) allPeople with
            | Some child => Ok child
            | None => Throw (TreeChildNotFound (child_id rel))
            end) childRelationships ;;
      parents <-
        mapR (fun rel =>
            match find (fun p => id p =? parent_id rel) allPeople with
            | Some parent => Ok parent
            | None => Throw (TreeParentNotFound (parent_id rel))
            end) parentRelationships ;;
      Ok (mkPersonWithRelationships person parents children))
    allPeople.

(** ** Tree assembler (client, FamilyTree component) *)

(** The interface [TreeNode]. *)
Inductive TreeNode := mkTreeNode {
  person : PersonWithRelationships;
  tn_children : list TreeNode;
  level : Z
}.

(** [xs.map(f)] for an [f] that may run out of fuel. *)
Fixpoint mapO {A B} (f : A -> option B) (xs : list A) : option (list B) :=
  match xs with
  | [] => Some []
  | x :: xs' =>
      match f x, mapO f xs' with
      | Some y, Some ys => Some (y :: ys)
      | _, _ => None
      end
  end.

(** [.filter(Boolean)] on an array of nodes and [null]s. *)
Fixpoint filter_Boolean {A} (xs : list (option A)) : list A :=
  match xs with
  | [] => []
  | Some x :: xs' => x :: filter_Boolean xs'
  | None :: xs' => filter_Boolean xs'
  end.

(** [buildTree].  The source function is recursive with no bound of its own,
    so the embedding carries the depth of recursion it may use as [fuel]:
    [None] says that the call nests deeper than [fuel], and a call returns
    exactly when some [fuel] yields [Some] node. *)
Fixpoint buildTree (fuel : nat) (data : list PersonWithRelationships)
    (p : PersonWithRelationships) (lvl : Z) : option TreeNode :=
  match fuel with
  | O => None
  | S fuel' =>
      match
        mapO (fun child =>
            match find (fun q => id (base q) =? id child) data with
            | Some childWithRelationships =>
                option_map Some
                  (buildTree fuel' data childWithRelationships (lvl + 1))
            | None => Some None
            end) (children p)
      with
      | Some nodes => Some (mkTreeNode p (filter_Boolean nodes) lvl)
      | None => None
      end
  end.

(** [treeStructure], the body of the [useMemo]. *)
Definition treeStructure (fuel : nat) (data : list PersonWithRelationships)
    : option (list TreeNode) :=
  if Nat.eqb (length data) 0 then Some []
  else
    let rootPeople := filter (fun q => Nat.eqb (length (parents q)) 0) data in
    mapO (fun q => buildTree fuel data q 0) rootPeople.

(** ** Constraints of the schema

    What the table declarations promise of every state: [id] is a primary
    key of both tables, [parent_id] and [child_id] reference an existing
    person, and a [serial] sequence is ahead of the ids it has given out. *)

Definition has_person (db : Database) (i : Z) : Prop :=
  In i (map id (people db)).

Definition has_edge (db : Database) (p c : Z) : Prop :=
  exists r, In r (relationships db) /\ parent_id r = p /\ child_id r = c.

Definition referential_integrity (db : Database) : Prop :=
  forall r, In r (relationships db) ->
    has_person db (parent_id r) /\ has_person db (child_id r).

Record db_wf (db : Database) : Prop := mk_db_wf {
  wf_people_key : NoDup (map id (people db));
  wf_relationships_key : NoDup (map rel_id (relationships db));
  wf_references : referential_integrity db;
  wf_people_seq : forall p, In p (people db) -> id p < people_id_seq db;
  wf_relationships_seq :
    forall r, In r (relationships db) -> rel_id r < relationships_id_seq db
}.

(** A decision procedure for [db_wf], to check concrete states. *)
Fixpoint nodupb (l : list Z) : bool :=
  match l with
  | [] => true
  | x :: l' => negb (existsb (Z.eqb x) l') && nodupb l'
  end.

Definition memb (i : Z) (l : list Z) : bool := existsb (Z.eqb i) l.

Definition db_wfb (db : Database) : bool :=
  nodupb (map id (people db))
  && nodupb (map rel_id (relationships db))
  && forallb (fun r => memb (parent_id r) (map id (people db))
                       && memb (child_id r) (map id (people db)))
       (relationships db)
  && forallb (fun p => id p <? people_id_seq db) (people db)
  && forallb (fun r => rel_id r <? relationships_id_seq db) (relationships db).

(** The states of the application: those that the mutating handlers reach
    from the empty database. *)
Inductive step (db db' : Database) : Prop :=
| step_createPerson (now : Date) (input : CreatePersonInput) (p : Person) :
    createPerson now input db = Ok (db', p) -> step db db'
| step_updatePerson (now : Date) (input : UpdatePersonInput)
    (p : option Person) :
    updatePerson now input db = Ok (db', p) -> step db db'
| step_deletePerson (i : Z) (b : bool) :
    deletePerson i db = Ok (db', b) -> step db db'
| step_createRelationship (now : Date) (input : RelationshipInput)
    (r : Relationship) :
    createRelationship now input db = Ok (db', r) -> step db db'
| step_deleteRelationship (input : RelationshipInput) (b : bool) :
    deleteRelationship input db = Ok (db', b) -> step db db'.

Inductive reachable : Database -> Prop :=
| reachable_empty : reachable emptyDB
| reachable_step (db db' : Database) :
    reachable db -> step db db' -> reachable db'.

(** An edge with one end among the people and the other end missing. *)
Definition half_dangling (db : Database) (r : Relationship) : Prop :=
  (has_person db (parent_id r) /\ ~ has_person db (child_id r))
  \/ (has_person db (child_id r) /\ ~ has_person db (parent_id r)).

(** What [getFamilyTree] computes for one person: each selected edge, in
    table order, resolved to the first person with the id it names. *)
Definition resolved_entry (db : Database) (e : PersonWithRelationships)
    : Prop :=
  Forall2
    (fun rel q => find (fun p => id p =? parent_id rel) (people db) = Some q)
    (filter (fun rel => child_id rel =? id (base e)) (relationships db))
    (parents e)
  /\ Forall2
       (fun rel q => find (fun p => id p =? child_id rel) (people db) = Some q)
       (filter (fun rel => parent_id rel =? id (base e)) (relationships db))
       (children e).

(** ** Vocabulary for the assembled forest *)

(** [in_tree n t]: the node [n] occurs in the tree [t], at its root or
    below one of its children. *)
Inductive in_tree (n : TreeNode) : TreeNode -> Prop :=
| in_tree_root : in_tree n n
| in_tree_child (t c : TreeNode) :
    In c (tn_children t) -> in_tree n c -> in_tree n t.

Definition in_forest (n : TreeNode) (forest : list TreeNode) : Prop :=
  exists t, In t forest /\ in_tree n t.

(** [child_link data p q]: [buildTree] on [p] recurses on [q], the entry
    that [data.find] returns for one of the children of [p]. *)
Definition child_link (data : list PersonWithRelationships)
    (p q : PersonWithRelationships) : Prop :=
  exists c, In c (children p)
            /\ find (fun x => id (base x) =? id c) data = Some q.

(** A chain of one or more child links. *)
Inductive child_path (data : list PersonWithRelationships)
    : PersonWithRelationships -> PersonWithRelationships -> Prop :=
| child_path_one (p q : PersonWithRelationships) :
    child_link data p q -> child_path data p q
| child_path_step (p q r : PersonWithRelationships) :
    child_link data p q -> child_path data q r -> child_path data p r.

(** The entries that [buildTree] recurses on for [p], in order. *)
Definition found_children (data : list PersonWithRelationships)
    (p : PersonWithRelationships) : list PersonWithRelationships :=
  flat_map (fun c =>
      match find (fun x => id (base x) =? id c) data with
      | Some q => [q]
      | None => []
      end) (children p).

(** A person that no edge names as child. *)
Definition no_parent_edge (db : Database) (x : Person) : bool :=
  forallb (fun r => negb (child_id r =? id x)) (relationships db).

(** ** Sample states

    Four people and the states that the handlers reach from the empty
    database with them; the clock reads 100, 200, ... at successive calls. *)

Definition input_of (name : string) : CreatePersonInput :=
  mkCreatePersonInput name None None None.

Definition grandma : Person := mkPerson 1 "Grandma" None None None 100 100.
Definition mother : Person := mkPerson 2 "Mother" None None None 200 200.
Definition father : Person := mkPerson 3 "Father" None None None 300 300.
Definition daughter : Person := mkPerson 4 "Daughter" None None None 400 400.

(** The four people and no relationship. *)
Definition db_people : Database :=
  mkDatabase [grandma; mother; father; daughter] [] 5 1.

(** Grandma -> Mother, Mother -> Daughter, Father -> Daughter. *)
Definition db_family : Database :=
  mkDatabase [grandma; mother; father; daughter]
    [mkRelationship 1 1 2 500; mkRelationship 2 2 4 600;
     mkRelationship 3 3 4 700] 5 4.

(** The same family with the edges to Daughter recorded in the other
    order. *)
Definition db_family_swapped : Database :=
  mkDatabase [grandma; mother; father; daughter]
    [mkRelationship 1 1 2 500; mkRelationship 2 3 4 600;
     mkRelationship 3 2 4 700] 5 4.

(** A state outside the schema: one person, and an edge between two ids
    that no person has. *)
Definition db_stray_edge : Database :=
  mkDatabase [grandma] [mkRelationship 1 7 8 500] 2 2.

(** Grandma -> Mother -> Daughter -> Father -> Mother: four edges that
    the validator accepts one after the other, and a cycle below the root
    Grandma. *)
Definition db_cycle : Database :=
  mkDatabase [grandma; mother; father; daughter]
    [mkRelationship 1 1 2 500; mkRelationship 2 2 4 600;
     mkRelationship 3 4 3 700; mkRelationship 4 3 2 800] 5 5.

(** The flat lists that [getFamilyTree] returns for [db_family] and for
    [db_cycle]. *)
Definition f_grandma := mkPersonWithRelationships grandma [] [mother].
Definition f_mother := mkPersonWithRelationships mother [grandma] [daughter].
Definition f_father := mkPersonWithRelationships father [] [daughter].
Definition f_daughter :=
  mkPersonWithRelationships daughter [mother; father] [].

Definition data_family : list PersonWithRelationships :=
  [f_grandma; f_mother; f_father; f_daughter].

(** The forest of the sample family: Daughter has a node under Mother and
    a node under Father. *)
Definition forest_family : list TreeNode :=
  [mkTreeNode f_grandma
     [mkTreeNode f_mother [mkTreeNode f_daughter [] 2] 1] 0;
   mkTreeNode f_father [mkTreeNode f_daughter [] 1] 0].

Definition c_grandma := mkPersonWithRelationships grandma [] [mother].
Definition c_mother :=
  mkPersonWithRelationships mother [grandma; father] [daughter].
Definition c_father := mkPersonWithRelationships father [daughter] [mother].
Definition c_daughter := mkPersonWithRelationships daughter [mother] [father].

Definition data_cycle : list PersonWithRelationships :=
  [c_grandma; c_mother; c_father; c_daughter].

(** A rank for the sample people: ids grow from parent to child. *)
Definition rank_by_id (e : PersonWithRelationships) : nat :=
  Z.to_nat (10 - id (base e)).

(** ** Vocabulary for sequences of calls and for the edges *)

(** Any number of mutating calls, one after the other. *)
Inductive steps : Database -> Database -> Prop :=
| steps_none (db : Database) : steps db db
| steps_more (db db' db'' : Database) :
    steps db db' -> step db' db'' -> steps db db''.

(** A chain of one or more edges, from ancestor to descendant. *)
Inductive edge_path (db : Database) : Z -> Z -> Prop :=
| edge_path_one (a b : Z) : has_edge db a b -> edge_path db a b
| edge_path_step (a b c : Z) :
    has_edge db a b -> edge_path db b c -> edge_path db a c.

(** What the checks of [createRelationship] keep true of the stored edges:
    no edge from a person to itself, no two edges with the same pair, no
    edge together with its reverse. *)
Definition edges_valid (db : Database) : Prop :=
  (forall r, In r (relationships db) -> parent_id r <> child_id r)
  /\ NoDup (map (fun r => (parent_id r, child_id r)) (relationships db))
  /\ (forall r, In r (relationships db) ->
                ~ has_edge db (child_id r) (parent_id r)).

(** Ids given out by the two sequences, which start at 1. *)
Definition ids_positive (db : Database) : Prop :=
  0 < people_id_seq db /\ 0 < relationships_id_seq db
  /\ (forall p, In p (people db) -> 0 < id p)
  /\ (forall r, In r (relationships db) -> 0 < rel_id r).

(** ** The client's list of people (client, App component)

    The three updaters that [App] passes to [setPeople] after a successful
    call of [createPerson], [updatePerson] and [deletePerson]. *)

(** [(prev) => [...prev, newPerson]] of [handleCreatePerson]. *)
Definition people_created (newPerson : Person) (prev : list Person)
    : list Person :=
  prev ++ [newPerson].

(** [prev.map((p) => p.id === updatedPerson.id ? updatedPerson : p)] of
    [handleUpdatePerson]. *)
Definition people_updated (updatedPerson : Person) (prev : list Person)
    : list Person :=
  map (fun p => if id p =? id updatedPerson then updatedPerson else p) prev.

(** [prev.filter((p) => p.id !== personId)] of [handleDeletePerson]. *)
Definition people_deleted (personId : Z) (prev : list Person)
    : list Person :=
  filter (fun p => negb (id p =? personId)) prev.

(** ** Ages (client, FamilyTree and PersonList components)

    [calculateAge] reads the calendar fields of its dates through the
    methods [getFullYear], [getMonth] and [getDate] of the JavaScript
    [Date], which are parameters here, and the clock through [new Date()]. *)

Section Calendar.
Variables getFullYear getMonth getDate : Date -> Z.

Definition calculateAge (birthDate deathDate : option Date) (now : Date)
    : string :=
  match birthDate with
  | None => EmptyString
  | Some birth =>
      let endDate :=
        match deathDate with
        | Some death => death
        | None => now
        end in
      let age := getFullYear endDate - getFullYear birth in
      let monthDiff := getMonth endDate - getMonth birth in
      if (monthDiff <? 0)
         || ((monthDiff =? 0) && (getDate endDate <? getDate birth))
      then string_of_Z (age - 1)
      else string_of_Z age
  end.

(** The calendar order of two dates by year, month and day. *)
Definition calendar_le (d1 d2 : Z * Z * Z) : Prop :=
  let '(y1, m1, a1) := d1 in
  let '(y2, m2, a2) := d2 in
  y1 < y2 \/ (y1 = y2 /\ (m1 < m2 \/ (m1 = m2 /\ a1 <= a2))).

(** The anniversary of [birth] after [k] years. *)
Definition anniversary (birth : Date) (k : Z) : Z * Z * Z :=
  (getFullYear birth + k, getMonth birth, getDate birth).

Definition calendar_day (d : Date) : Z * Z * Z :=
  (getFullYear d, getMonth d, getDate d).
End Calendar.

(** A toy calendar of twelve months of thirty days, counted in days, to
    run [calculateAge] on. *)
Definition toy_year (d : Date) : Z := d / 360.
Definition toy_month (d : Date) : Z := (d mod 360) / 30.
Definition toy_date (d : Date) : Z := d mod 30 + 1.

(** Grandma -> Mother -> Daughter, and nothing else. *)
Definition db_chain : Database :=
  mkDatabase [grandma; mother; father; daughter]
    [mkRelationship 1 1 2 500; mkRelationship 2 2 4 600] 5 3.

(** Mother -> Daughter -> Father -> Mother with nobody above them: a
    flat list in which every entry has a parent. *)
Definition data_loop : list PersonWithRelationships :=
  [mkPersonWithRelationships mother [father] [daughter];
   mkPersonWithRelationships father [daughter] [mother];
   mkPersonWithRelationships daughter [mother] [father]].

(** ** Basic facts about the queries *)

Lemma memb_In (i : Z) (l : list Z) : memb i l = true <-> In i l.
Proof.
  unfold memb. rewrite existsb_exists. split.
  - intros (x & Hx & E). apply Z.eqb_eq in E. now subst.
  - intros H. exists i. split; [assumption | apply Z.eqb_refl].
Qed.

Lemma nodupb_NoDup (l : list Z) : nodupb l = true -> NoDup l.
Proof.
  induction l as [|x l IH]; simpl; intros H; constructor.
  - apply andb_true_iff in H. destruct H as [H _].
    apply negb_true_iff in H. intros Hin.
    apply memb_In in Hin. unfold memb in Hin. congruence.
  - apply IH. apply andb_true_iff in H. tauto.
Qed.

Lemma db_wfb_sound (db : Database) : db_wfb db = true -> db_wf db.
Proof.
  unfold db_wfb. rewrite !andb_true_iff, !forallb_forall.
  intros ((((K1 & K2) & R) & S1) & S2). constructor.
  - now apply nodupb_NoDup.
  - now apply nodupb_NoDup.
  - intros r Hr. specialize (R r Hr). apply andb_true_iff in R.
    unfold has_person. rewrite <- !memb_In. exact R.
  - intros p Hp. apply Z.ltb_lt. now apply S1.
  - intros r Hr. apply Z.ltb_lt. now apply S2.
Qed.

Lemma filter_empty_iff {A} (f : A -> bool) (l : list A) :
  Nat.eqb (length (filter f l)) 0 = true <-> forall x, In x l -> f x = false.
Proof.
  induction l as [|a l IH]; simpl.
  - split; [intros _ x [] | reflexivity].
  - destruct (f a) eqn:Fa; simpl.
    + split; [discriminate |].
      intros H. specialize (H a (or_introl eq_refl)). congruence.
    + rewrite IH. split.
      * intros H x [<- | Hx]; [assumption | now apply H].
      * intros H x Hx. apply H. now right.
Qed.

Lemma filter_nonempty_iff {A} (f : A -> bool) (l : list A) :
  Nat.ltb 0 (length (filter f l)) = true <-> exists x, In x l /\ f x = true.
Proof.
  induction l as [|a l IH]; simpl.
  - split; [discriminate | intros (x & [] & _)].
  - destruct (f a) eqn:Fa; simpl.
    + split; [intros _; exists a; auto | reflexivity].
    + rewrite IH. split.
      * intros (x & Hx & Fx). exists x. auto.
      * intros (x & [<- | Hx] & Fx); [congruence | exists x; auto].
Qed.

Lemma select_person_none (db : Database) (i : Z) :
  Nat.eqb (length (select_person db i)) 0 = true <-> ~ has_person db i.
Proof.
  unfold select_person, has_person. rewrite filter_empty_iff, in_map_iff.
  split.
  - intros H (p & E & Hp). apply H in Hp. apply Z.eqb_neq in Hp. congruence.
  - intros H p Hp. apply Z.eqb_neq. intros E. apply H. exists p. auto.
Qed.

Lemma select_person_some (db : Database) (i : Z) :
  Nat.eqb (length (select_person db i)) 0 = false <-> has_person db i.
Proof.
  destruct (Nat.eqb (length (select_person db i)) 0) eqn:E.
  - apply select_person_none in E. split; [discriminate | contradiction].
  - split; [intros _ | reflexivity].
    unfold select_person, has_person in *.
    destruct (filter (fun p => id p =? i) (people db)) as [|p l] eqn:F;
      [discriminate |].
    assert (Hp : In p (filter (fun p => id p =? i) (people db)))
      by (rewrite F; now left).
    apply filter_In in Hp. destruct Hp as [Hp Hi]. apply Z.eqb_eq in Hi.
    apply in_map_iff. exists p. auto.
Qed.

Lemma select_relationship_some (db : Database) (p c : Z) :
  Nat.ltb 0 (length (select_relationship db p c)) = true <-> has_edge db p c.
Proof.
  unfold select_relationship, has_edge. rewrite filter_nonempty_iff.
  split; intros (r & Hr & H); exists r.
  - apply andb_true_iff in H. rewrite !Z.eqb_eq in H. tauto.
  - split; [assumption |]. apply andb_true_iff. rewrite !Z.eqb_eq. assumption.
Qed.

Lemma select_relationship_none (db : Database) (p c : Z) :
  Nat.ltb 0 (length (select_relationship db p c)) = false <-> ~ has_edge db p c.
Proof.
  rewrite <- select_relationship_some.
  destruct (Nat.ltb 0 (length (select_relationship db p c))); split;
    congruence.
Qed.

Lemma db_people_reached :
  (s1 <- createPerson 100 (input_of "Grandma") emptyDB ;;
   s2 <- createPerson 200 (input_of "Mother") (fst s1) ;;
   s3 <- createPerson 300 (input_of "Father") (fst s2) ;;
   s4 <- createPerson 400 (input_of "Daughter") (fst s3) ;;
   Ok (fst s4)) = Ok db_people.
Proof. reflexivity. Qed.

Lemma db_family_reached :
  (s1 <- createRelationship 500 (mkRelationshipInput 1 2) db_people ;;
   s2 <- createRelationship 600 (mkRelationshipInput 2 4) (fst s1) ;;
   s3 <- createRelationship 700 (mkRelationshipInput 3 4) (fst s2) ;;
   Ok (fst s3)) = Ok db_family.
Proof. reflexivity. Qed.

Lemma db_family_wf : db_wf db_family.
Proof. apply db_wfb_sound. reflexivity. Qed.

(** ** The relationship validator *)

Lemma failures_distinct (p c : Z) :
  NoDup [message SelfRelationship; message (ParentNotFound p);
         message (ChildNotFound c); message DuplicateRelationship;
         message CircularRelationship].
Proof.
  repeat constructor; simpl; intuition discriminate.
Qed.

(** C1.  [createRelationship] runs five checks in this order, each ending
    the call with a failure of its own: equal ids ([SelfRelationship]), no
    person with the parent id ([ParentNotFound]), no person with the child id
    ([ChildNotFound]), an edge with the same pair ([DuplicateRelationship]),
    an edge with the reversed pair ([CircularRelationship]).  When all five
    pass, the edge is appended to the table with the next id of the sequence,
    which no stored edge has in a state that meets the schema.  The five
    failures throw five different messages.  The two existence queries are
    made together, on ids of the column's range. *)
Theorem createRelationship_checks (now : Date) (input : RelationshipInput)
    (db : Database) :
  let p := in_parent_id input in
  let c := in_child_id input in
  (p = c -> createRelationship now input db = Throw SelfRelationship)
  /\ (p <> c -> int4 p -> int4 c -> ~ has_person db p ->
      createRelationship now input db = Throw (ParentNotFound p))
  /\ (p <> c -> int4 p -> int4 c -> has_person db p -> ~ has_person db c ->
      createRelationship now input db = Throw (ChildNotFound c))
  /\ (p <> c -> has_person db p -> has_person db c -> has_edge db p c ->
      createRelationship now input db = Throw DuplicateRelationship)
  /\ (p <> c -> has_person db p -> has_person db c -> ~ has_edge db p c ->
      has_edge db c p ->
      createRelationship now input db = Throw CircularRelationship)
  /\ (p <> c -> has_person db p -> has_person db c -> ~ has_edge db p c ->
      ~ has_edge db c p ->
      let row := mkRelationship (relationships_id_seq db) p c now in
      createRelationship now input db
      = Ok (mkDatabase (people db) (relationships db ++ [row])
              (people_id_seq db) (relationships_id_seq db + 1), row)
      /\ (db_wf db -> ~ In (rel_id row) (map rel_id (relationships db))))
  /\ NoDup (map message [SelfRelationship; ParentNotFound p; ChildNotFound c;
                         DuplicateRelationship; CircularRelationship]).
Proof.
  intros p c. unfold createRelationship. fold p c.
  split; [| split; [| split; [| split; [| split; [| split]]]]].
  - intros E. apply Z.eqb_eq in E. now rewrite E.
  - intros N _ _ Hp. apply Z.eqb_neq in N. rewrite N.
    apply select_person_none in Hp. now rewrite Hp.
  - intros N _ _ Hp Hc. apply Z.eqb_neq in N. rewrite N.
    apply select_person_some in Hp. rewrite Hp.
    apply select_person_none in Hc. now rewrite Hc.
  - intros N Hp Hc He. apply Z.eqb_neq in N. rewrite N.
    apply select_person_some in Hp, Hc. rewrite Hp, Hc.
    apply select_relationship_some in He. now rewrite He.
  - intros N Hp Hc Hn He. apply Z.eqb_neq in N. rewrite N.
    apply select_person_some in Hp, Hc. rewrite Hp, Hc.
    apply select_relationship_none in Hn. rewrite Hn.
    apply select_relationship_some in He. now rewrite He.
  - intros N Hp Hc Hn Hr. split.
    + apply Z.eqb_neq in N. rewrite N.
      pose proof Hp as Sp. pose proof Hc as Sc.
      apply select_person_some in Sp, Sc. rewrite Sp, Sc.
      apply select_relationship_none in Hn, Hr. rewrite Hn, Hr.
      reflexivity.
    + intros W Hin. apply in_map_iff in Hin.
      destruct Hin as (r & E & Hin).
      apply (wf_relationships_seq db W) in Hin. simpl in E. lia.
  - apply failures_distinct.
Qed.

(** The six outcomes of C1 on the sample family: a self pair, an unknown
    parent, an unknown child, a recorded pair, a reversed pair, and a pair
    that is accepted. *)
Lemma createRelationship_checks_witness :
  createRelationship 800 (mkRelationshipInput 2 2) db_family
    = Throw SelfRelationship
  /\ createRelationship 800 (mkRelationshipInput 9 2) db_family
    = Throw (ParentNotFound 9)
  /\ createRelationship 800 (mkRelationshipInput 2 9) db_family
    = Throw (ChildNotFound 9)
  /\ createRelationship 800 (mkRelationshipInput 1 2) db_family
    = Throw DuplicateRelationship
  /\ createRelationship 800 (mkRelationshipInput 2 1) db_family
    = Throw CircularRelationship
  /\ createRelationship 800 (mkRelationshipInput 1 3) db_family
    = Ok (mkDatabase (people db_family)
            (relationships db_family ++ [mkRelationship 4 1 3 800]) 5 5,
          mkRelationship 4 1 3 800).
Proof.
  split; [| split; [| split; [| split; [| split]]]].
  - apply (createRelationship_checks 800 (mkRelationshipInput 2 2) db_family).
    reflexivity.
  - apply (createRelationship_checks 800 (mkRelationshipInput 9 2) db_family).
    + simpl; lia.
    + unfold int4; simpl; lia.
    + unfold int4; simpl; lia.
    + unfold has_person; simpl; lia.
  - apply (createRelationship_checks 800 (mkRelationshipInput 2 9) db_family).
    + simpl; lia.
    + unfold int4; simpl; lia.
    + unfold int4; simpl; lia.
    + unfold has_person; simpl; lia.
    + unfold has_person; simpl; lia.
  - apply (createRelationship_checks 800 (mkRelationshipInput 1 2) db_family).
    + simpl; lia.
    + unfold has_person; simpl; lia.
    + unfold has_person; simpl; lia.
    + exists (mkRelationship 1 1 2 500). simpl. auto.
  - apply (createRelationship_checks 800 (mkRelationshipInput 2 1) db_family).
    + simpl; lia.
    + unfold has_person; simpl; lia.
    + unfold has_person; simpl; lia.
    + intros (r & Hr & H1 & H2). simpl in Hr.
      destruct Hr as [<- | [<- | [<- | []]]]; simpl in *; lia.
    + exists (mkRelationship 1 1 2 500). simpl. auto.
  - apply (createRelationship_checks 800 (mkRelationshipInput 1 3) db_family).
    + simpl; lia.
    + unfold has_person; simpl; lia.
    + unfold has_person; simpl; lia.
    + intros (r & Hr & H1 & H2). simpl in Hr.
      destruct Hr as [<- | [<- | [<- | []]]]; simpl in *; lia.
    + intros (r & Hr & H1 & H2). simpl in Hr.
      destruct Hr as [<- | [<- | [<- | []]]]; simpl in *; lia.
Defined.

(** C9.  A self pair fails with the self-relationship error whether or not a
    person with that id exists: the equality test comes first, so neither
    not-found error is produced for it. *)
Theorem createRelationship_self_first (now : Date) (x : Z) (db : Database) :
  createRelationship now (mkRelationshipInput x x) db = Throw SelfRelationship
  /\ (forall i,
        createRelationship now (mkRelationshipInput x x) db
          <> Throw (ParentNotFound i)
        /\ createRelationship now (mkRelationshipInput x x) db
          <> Throw (ChildNotFound i)).
Proof.
  assert (E : createRelationship now (mkRelationshipInput x x) db
              = Throw SelfRelationship).
  { unfold createRelationship. simpl. now rewrite Z.eqb_refl. }
  split; [exact E |]. intros i. rewrite E. split; discriminate.
Qed.

(** ** Deleting relationships and people *)

Lemma filter_all {A} (f : A -> bool) (l : list A) :
  (forall x, In x l -> f x = true) -> filter f l = l.
Proof.
  induction l as [|a l IH]; simpl; intros H; [reflexivity |].
  rewrite (H a (or_introl eq_refl)). f_equal. apply IH.
  intros x Hx. apply H. now right.
Qed.

(** C8.  When no edge has the given pair, a pair of the columns' range,
    [deleteRelationship] returns [success = false], throws nothing and leaves
    the database as it was; when one exists, it returns [success = true] and
    the new state holds the same people and exactly the edges with another
    pair. *)
Theorem deleteRelationship_success (input : RelationshipInput)
    (db : Database) :
  let p := in_parent_id input in
  let c := in_child_id input in
  (int4 p -> int4 c -> ~ has_edge db p c ->
   deleteRelationship input db = Ok (db, false))
  /\ (has_edge db p c ->
      exists db',
        deleteRelationship input db = Ok (db', true)
        /\ ~ has_edge db' p c
        /\ people db' = people db
        /\ (forall r, In r (relationships db') <->
                      In r (relationships db)
                      /\ ~ (parent_id r = p /\ child_id r = c))).
Proof.
  intros p c. unfold deleteRelationship, delete_relationship. fold p c.
  split.
  - intros _ _ Hn. apply select_relationship_none in Hn.
    unfold select_relationship in Hn.
    assert (E : length (filter (fun r => (parent_id r =? p) && (child_id r =? c))
                          (relationships db)) = 0%nat).
    { destruct (length _); [reflexivity | discriminate]. }
    rewrite E. simpl. rewrite filter_all.
    + now destruct db.
    + intros r Hr. apply negb_true_iff.
      apply length_zero_iff_nil in E.
      destruct ((parent_id r =? p) && (child_id r =? c)) eqn:F;
        [| reflexivity].
      assert (Hin : In r (filter (fun r => (parent_id r =? p) && (child_id r =? c))
                            (relationships db)))
        by (apply filter_In; auto).
      rewrite E in Hin. destruct Hin.
  - intros He. eexists. split; [| split; [| split]].
    + apply select_relationship_some in He. unfold select_relationship in He.
      apply Nat.ltb_lt in He.
      replace (0 <? Z.of_nat _) with true; [reflexivity |].
      symmetry. apply Z.ltb_lt. lia.
    + intros (r & Hr & E1 & E2). simpl in Hr. apply filter_In in Hr.
      destruct Hr as [_ Hr]. apply negb_true_iff in Hr.
      apply andb_false_iff in Hr. rewrite !Z.eqb_neq in Hr. tauto.
    + reflexivity.
    + intros r. simpl. rewrite filter_In, negb_true_iff, andb_false_iff.
      rewrite !Z.eqb_neq. split; intros [Hr H]; (split; [assumption |]).
      * tauto.
      * destruct (Z.eq_dec (parent_id r) p); [right | left]; tauto.
Qed.

(** C8 on the sample family: no edge Grandma -> Daughter to delete, and the
    edge Mother -> Daughter deleted. *)
Lemma deleteRelationship_success_witness :
  deleteRelationship (mkRelationshipInput 1 4) db_family
    = Ok (db_family, false)
  /\ exists db',
       deleteRelationship (mkRelationshipInput 2 4) db_family = Ok (db', true)
       /\ ~ has_edge db' 2 4.
Proof.
  split.
  - apply (deleteRelationship_success (mkRelationshipInput 1 4) db_family).
    + unfold int4; simpl; lia.
    + unfold int4; simpl; lia.
    + intros (r & Hr & H1 & H2). simpl in Hr.
      destruct Hr as [<- | [<- | [<- | []]]]; simpl in *; lia.
  - destruct (deleteRelationship_success (mkRelationshipInput 2 4) db_family)
      as [_ H].
    destruct H as (db' & E & Hn & _).
    + exists (mkRelationship 2 2 4 600). simpl. auto.
    + exists db'. auto.
Defined.

(** C7.  For an absent id of the column's range [deletePerson] fails with
    [PersonNotFound].  For an existing person it succeeds, and the new state
    holds exactly the people with another id and exactly the edges that name
    the person neither as parent nor as child, each as it was and in the same
    order. *)
Theorem deletePerson_cascade (x : Z) (db : Database) :
  (int4 x -> ~ has_person db x ->
   deletePerson x db = Throw (PersonNotFound x))
  /\ (has_person db x ->
      exists db',
        deletePerson x db = Ok (db', true)
        /\ ~ has_person db' x
        /\ (forall r, In r (relationships db') ->
                      parent_id r <> x /\ child_id r <> x)
        /\ (forall q, In q (people db') <-> In q (people db) /\ id q <> x)
        /\ (forall r, In r (relationships db') <->
                      In r (relationships db)
                      /\ parent_id r <> x /\ child_id r <> x)
        /\ people db' = filter (fun q => negb (id q =? x)) (people db)
        /\ relationships db'
           = filter (fun r => negb (parent_id r =? x) && negb (child_id r =? x))
               (relationships db)).
Proof.
  unfold deletePerson. split.
  - intros _ Hn. apply select_person_none in Hn. now rewrite Hn.
  - intros Hx. apply select_person_some in Hx. rewrite Hx.
    assert (R : forall r,
      In r (relationships (delete_person x db)) <->
      In r (relationships db) /\ parent_id r <> x /\ child_id r <> x).
    { intros r. simpl. rewrite filter_In, andb_true_iff, !negb_true_iff.
      rewrite !Z.eqb_neq. tauto. }
    assert (P : forall q,
      In q (people (delete_person x db)) <-> In q (people db) /\ id q <> x).
    { intros q. simpl. rewrite filter_In, negb_true_iff, Z.eqb_neq. tauto. }
    eexists. split; [reflexivity |].
    split; [| split; [| split; [| split; [| split]]]].
    + unfold has_person. rewrite in_map_iff. intros (q & E & Hq).
      apply P in Hq. tauto.
    + intros r Hr. apply R in Hr. tauto.
    + exact P.
    + exact R.
    + reflexivity.
    + reflexivity.
Qed.

(** C7 on the sample family: deleting Mother removes her and her two edges
    and keeps the three other people and the edge Father -> Daughter;
    deleting an absent id fails. *)
Lemma deletePerson_cascade_witness :
  deletePerson 9 db_family = Throw (PersonNotFound 9)
  /\ exists db',
       deletePerson 2 db_family = Ok (db', true)
       /\ people db' = [grandma; father; daughter]
       /\ relationships db' = [mkRelationship 3 3 4 700].
Proof.
  split.
  - apply (deletePerson_cascade 9 db_family).
    + unfold int4; lia.
    + unfold has_person; simpl; lia.
  - destruct (deletePerson_cascade 2 db_family) as [_ H].
    destruct H as (db' & E & _ & _ & _ & _ & Hp & Hr).
    + unfold has_person; simpl; lia.
    + exists db'. rewrite Hp, Hr. auto.
Defined.

(** ** Updating a person *)

Lemma unique_row (l : list Person) (p : Person) :
  NoDup (map id l) -> In p l ->
  filter (fun q => id q =? id p) l = [p].
Proof.
  induction l as [|a l IH]; simpl; intros N Hin; [destruct Hin |].
  destruct Hin as [E | Hin].
  - subst a. rewrite Z.eqb_refl. f_equal.
    inversion N as [|? ? Hn N']; subst.
    apply length_zero_iff_nil.
    destruct (filter (fun q => id q =? id p) l) as [|q l'] eqn:F;
      [reflexivity | exfalso].
    assert (Hq : In q (filter (fun q => id q =? id p) l))
      by (rewrite F; now left).
    apply filter_In in Hq. destruct Hq as [Hq Eq]. apply Z.eqb_eq in Eq.
    apply Hn. rewrite <- Eq. now apply in_map.
  - inversion N as [|? ? Hn N']; subst.
    destruct (id a =? id p) eqn:E.
    + apply Z.eqb_eq in E. exfalso. apply Hn. rewrite E. now apply in_map.
    + now apply IH.
Qed.

Lemma moved_rows_perm {A} (m : A -> bool) (g : A -> A) (l : list A) :
  Permutation (map (fun q => if m q then g q else q) l)
    (filter (fun q => negb (m q)) l ++ map g (filter m l)).
Proof.
  induction l as [|a l IH]; simpl; [constructor |].
  destruct (m a); simpl.
  - rewrite IH. apply Permutation_middle.
  - now constructor.
Qed.

Lemma update_person_rows (u : UpdateData) (i : Z) (db : Database) :
  Permutation (people (fst (update_person u i db)))
    (map (fun q => if id q =? i then set_columns u q else q) (people db)).
Proof.
  simpl. symmetry.
  apply (moved_rows_perm (fun q => id q =? i) (set_columns u)).
Qed.

(** X23.  For an absent id of the column's range [updatePerson] fails with
    [PersonNotFound].  For an existing person it returns the row with each
    supplied field replaced and each omitted field, the id and [created_at]
    as they were, and with [updated_at] set to the clock reading of the call.
    The table then holds this row in place of the old one and every other
    row as it was, in some order, and the edges are unchanged. *)
Theorem updatePerson_partial (now : Date) (input : UpdatePersonInput)
    (db : Database) :
  (int4 (up_id input) -> ~ has_person db (up_id input) ->
   updatePerson now input db = Throw (PersonNotFound (up_id input)))
  /\ (forall p,
        NoDup (map id (people db)) -> In p (people db) ->
        id p = up_id input ->
        exists db' p',
          updatePerson now input db = Ok (db', Some p')
          /\ id p' = id p
          /\ full_name p'
             = match up_full_name input with
               | Some v => v
               | None => full_name p
               end
          /\ birth_date p'
             = match up_birth_date input with
               | Some v => v
               | None => birth_date p
               end
          /\ death_date p'
             = match up_death_date input with
               | Some v => v
               | None => death_date p
               end
          /\ photo_url p'
             = match up_photo_url input with
               | Some v => v
               | None => photo_url p
               end
          /\ created_at p' = created_at p
          /\ updated_at p' = now
          /\ (updated_at p < updated_at p' <-> updated_at p < now)
          /\ Permutation (people db')
               (map (fun q => if id q =? id p then p' else q) (people db))
          /\ relationships db' = relationships db).
Proof.
  unfold updatePerson. split.
  - intros _ Hn. apply select_person_none in Hn. now rewrite Hn.
  - intros p N Hin E.
    assert (Hp : has_person db (up_id input)).
    { unfold has_person. rewrite <- E. now apply in_map. }
    apply select_person_some in Hp. rewrite Hp.
    set (u := mkUpdateData (up_full_name input) (up_birth_date input)
                (up_death_date input) (up_photo_url input) (Some now)).
    pose proof (update_person_rows u (up_id input) db) as R.
    unfold update_person in *. rewrite <- E in *.
    rewrite (unique_row _ _ N Hin) in *.
    simpl in *. eexists. eexists. split; [reflexivity |]. simpl.
    repeat (split; [reflexivity |]).
    split; [| reflexivity].
    rewrite R. apply Permutation_refl'.
    apply map_ext_in. intros q Hq.
    destruct (id q =? id p) eqn:Q; [| reflexivity].
    apply Z.eqb_eq in Q.
    assert (q = p); [| now subst].
    assert (Hq' : In q (filter (fun q => id q =? id p) (people db))).
    { apply filter_In. split; [assumption | now apply Z.eqb_eq]. }
    rewrite (unique_row _ _ N Hin) in Hq'. destruct Hq' as [<- | []].
    reflexivity.
Qed.

(** X23 on the sample people: renaming Mother at clock 900. *)
Lemma updatePerson_partial_witness :
  updatePerson 900 (mkUpdatePersonInput 9 (Some "Mum"%string) None None None)
    db_people = Throw (PersonNotFound 9)
  /\ exists db' p',
       updatePerson 900 (mkUpdatePersonInput 2 (Some "Mum"%string) None None None)
         db_people = Ok (db', Some p')
       /\ p' = mkPerson 2 "Mum" None None None 200 900.
Proof.
  split.
  - apply (updatePerson_partial 900
             (mkUpdatePersonInput 9 (Some "Mum"%string) None None None) db_people).
    + unfold int4; simpl; lia.
    + unfold has_person; simpl; lia.
  - destruct (updatePerson_partial 900
                (mkUpdatePersonInput 2 (Some "Mum"%string) None None None) db_people)
      as [_ H].
    destruct (H mother) as (db' & p' & E & H1 & H2 & H3 & H4 & H5 & H6 & H7 & _).
    + apply nodupb_NoDup. reflexivity.
    + simpl. auto.
    + reflexivity.
    + exists db', p'. split; [exact E |].
      destruct p'; simpl in *. now subst.
Defined.

(** C5.  [updatePerson] does not make [updated_at] strictly increase.  At a
    call whose clock reading equals the stored [updated_at] (an update in the
    millisecond of the creation, the moment at which the test of the partial
    update calls it), the call succeeds, changes only [full_name] and returns
    an [updated_at] that is not later than the stored one. *)
Theorem updatePerson_same_instant :
  exists db' p',
    updatePerson 200 (mkUpdatePersonInput 2 (Some "Mum"%string) None None None)
      db_people = Ok (db', Some p')
    /\ In mother (people db_people)
    /\ p' = mkPerson 2 "Mum" None None None 200 200
    /\ ~ (updated_at mother < updated_at p').
Proof.
  eexists. eexists. split; [reflexivity |]. split; [| split].
  - simpl. auto.
  - reflexivity.
  - simpl. lia.
Qed.

(** ** Looking a person up

    The two joins of [getPerson] pair every person with every edge; seen
    from the edges, each selected edge contributes the people that carry the
    id it names. *)

Lemma copy_person_eq (p : Person) : copy_person p = p.
Proof. now destruct p. Qed.

Lemma map_copy_person (l : list Person) : map copy_person l = l.
Proof.
  induction l as [|p l IH]; simpl; [reflexivity |].
  now rewrite copy_person_eq, IH.
Qed.

Section Join.
Context {A B : Type}.
Variable on : A -> B -> bool.
Variable w : B -> bool.

Lemma join_row (a : A) (r : list B) :
  map fst (filter (fun row => w (snd row)) (map (pair a) (filter (on a) r)))
  = flat_map (fun b => if on a b && w b then [a] else []) r.
Proof.
  induction r as [|b r IH]; simpl; [reflexivity |].
  destruct (on a b); simpl; [| exact IH].
  destruct (w b); simpl; [f_equal |]; exact IH.
Qed.

Lemma join_select (l : list A) (r : list B) :
  map fst (filter (fun row => w (snd row)) (innerJoin l r on))
  = flat_map
      (fun a => flat_map (fun b => if on a b && w b then [a] else []) r) l.
Proof.
  unfold innerJoin. induction l as [|a l IH]; simpl; [reflexivity |].
  now rewrite filter_app, map_app, join_row, IH.
Qed.

Lemma flat_map_app_perm {C} (f g : C -> list A) (l : list C) :
  Permutation (flat_map (fun x => f x ++ g x) l)
    (flat_map f l ++ flat_map g l).
Proof.
  induction l as [|x l IH]; simpl; [constructor |].
  rewrite IH, <- !app_assoc. apply Permutation_app_head.
  rewrite !app_assoc. apply Permutation_app_tail.
  apply Permutation_app_comm.
Qed.

Lemma flat_map_swap (g : A -> B -> list A) (l : list A) (r : list B) :
  Permutation (flat_map (fun a => flat_map (g a) r) l)
    (flat_map (fun b => flat_map (fun a => g a b) l) r).
Proof.
  induction l as [|a l IH]; simpl.
  - induction r as [|b r IHr]; simpl; [constructor | exact IHr].
  - rewrite IH. symmetry.
    apply (flat_map_app_perm (g a)
             (fun b => flat_map (fun a' => g a' b) l)).
Qed.

Lemma join_by_edge (l : list A) (r : list B) :
  flat_map
    (fun b => flat_map (fun a => if on a b && w b then [a] else []) l) r
  = flat_map (fun b => filter (fun a => on a b) l) (filter w r).
Proof.
  induction r as [|b r IH]; simpl; [reflexivity |].
  rewrite IH. destruct (w b); simpl.
  - f_equal. clear IH. induction l as [|a l IHl]; simpl; [reflexivity |].
    rewrite andb_true_r. destruct (on a b); simpl; now rewrite IHl.
  - replace (flat_map (fun a => if on a b && false then [a] else []) l)
      with (@nil A); [reflexivity |].
    clear IH. induction l as [|a l IHl]; simpl; [reflexivity |].
    now rewrite andb_false_r.
Qed.

Lemma join_perm (l : list A) (r : list B) :
  Permutation
    (map fst (filter (fun row => w (snd row)) (innerJoin l r on)))
    (flat_map (fun b => filter (fun a => on a b) l) (filter w r)).
Proof.
  rewrite join_select, <- join_by_edge.
  apply (flat_map_swap (fun a b => if on a b && w b then [a] else [])).
Qed.
End Join.

Lemma Permutation_In_iff {A} (l l' : list A) (x : A) :
  Permutation l l' -> (In x l <-> In x l').
Proof.
  intros H. split; apply Permutation_in; [assumption | now symmetry].
Qed.

Lemma getPerson_parents (i : Z) (db : Database) (e : PersonWithRelationships) :
  getPerson i db = Some e ->
  Permutation (parents e)
    (flat_map (fun r => filter (fun p => id p =? parent_id r) (people db))
       (filter (fun r => child_id r =? i) (relationships db))).
Proof.
  unfold getPerson. destruct (select_person db i); [discriminate |].
  intros E. injection E as <-. simpl. rewrite map_copy_person.
  apply (join_perm (fun p r => id p =? parent_id r)
           (fun r => child_id r =? i)).
Qed.

Lemma getPerson_children (i : Z) (db : Database) (e : PersonWithRelationships) :
  getPerson i db = Some e ->
  Permutation (children e)
    (flat_map (fun r => filter (fun p => id p =? child_id r) (people db))
       (filter (fun r => parent_id r =? i) (relationships db))).
Proof.
  unfold getPerson. destruct (select_person db i); [discriminate |].
  intros E. injection E as <-. simpl. rewrite map_copy_person.
  apply (join_perm (fun p r => id p =? child_id r)
           (fun r => parent_id r =? i)).
Qed.

Lemma getPerson_base (i : Z) (db : Database) :
  has_person db i ->
  exists e, getPerson i db = Some e /\ In (base e) (people db)
            /\ id (base e) = i.
Proof.
  intros H. apply select_person_some in H. unfold getPerson.
  destruct (select_person db i) as [|p l] eqn:S; [discriminate |].
  eexists. split; [reflexivity |]. simpl. rewrite copy_person_eq.
  assert (Hp : In p (select_person db i)) by (rewrite S; now left).
  unfold select_person in Hp. apply filter_In in Hp.
  now rewrite Z.eqb_eq in Hp.
Qed.

(** C6.  [getPerson] returns [null] for an id of the column's range that
    no person has.  For an existing id it returns a row of that id whose
    [parents] are exactly the people [q] with an edge from [q] to the id, and
    whose [children] are exactly the people [q] with an edge from the id to
    [q].  When the edges to a child are two, stored in either order,
    [parents] has length 2 and holds both parents. *)
Theorem getPerson_resolved (i : Z) (db : Database) :
  (int4 i -> ~ has_person db i -> getPerson i db = None)
  /\ (has_person db i ->
      exists e,
        getPerson i db = Some e
        /\ In (base e) (people db) /\ id (base e) = i
        /\ (forall q, In q (parents e) <->
                      In q (people db) /\ has_edge db (id q) i)
        /\ (forall q, In q (children e) <->
                      In q (people db) /\ has_edge db i (id q)))
  /\ (forall P1 P2 r1 r2,
        NoDup (map id (people db)) -> has_person db i ->
        In P1 (people db) -> In P2 (people db) ->
        parent_id r1 = id P1 -> parent_id r2 = id P2 ->
        Permutation (filter (fun r => child_id r =? i) (relationships db))
          [r1; r2] ->
        exists e,
          getPerson i db = Some e
          /\ length (parents e) = 2%nat
          /\ In P1 (parents e) /\ In P2 (parents e)).
Proof.
  split; [| split].
  - intros _ Hn. apply select_person_none in Hn. unfold getPerson.
    destruct (select_person db i); [reflexivity | discriminate].
  - intros H. destruct (getPerson_base i db H) as (e & E & Hb & Hi).
    exists e. repeat (split; [assumption |]). split; intros q.
    + rewrite (Permutation_In_iff _ _ q (getPerson_parents i db e E)).
      rewrite in_flat_map. unfold has_edge. split.
      * intros (r & Hr & Hq). apply filter_In in Hr, Hq.
        rewrite Z.eqb_eq in Hr, Hq. destruct Hr as [Hr Er].
        destruct Hq as [Hq Eq]. split; [assumption |]. exists r. auto.
      * intros (Hq & r & Hr & E1 & E2). exists r.
        rewrite !filter_In, !Z.eqb_eq. auto.
    + rewrite (Permutation_In_iff _ _ q (getPerson_children i db e E)).
      rewrite in_flat_map. unfold has_edge. split.
      * intros (r & Hr & Hq). apply filter_In in Hr, Hq.
        rewrite Z.eqb_eq in Hr, Hq. destruct Hr as [Hr Er].
        destruct Hq as [Hq Eq]. split; [assumption |]. exists r. auto.
      * intros (Hq & r & Hr & E1 & E2). exists r.
        rewrite !filter_In, !Z.eqb_eq. auto.
  - intros P1 P2 r1 r2 N H H1 H2 E1 E2 Hperm.
    destruct (getPerson_base i db H) as (e & E & _). exists e.
    split; [assumption |].
    assert (Hp : Permutation (parents e) [P1; P2]).
    { rewrite (getPerson_parents i db e E), Hperm. simpl.
      rewrite E1, E2, (unique_row _ _ N H1), (unique_row _ _ N H2).
      reflexivity. }
    split; [| split].
    + apply (Permutation_length Hp).
    + apply (Permutation_in _ (Permutation_sym Hp)). simpl. auto.
    + apply (Permutation_in _ (Permutation_sym Hp)). simpl. auto.
Qed.

(** C6 on the sample family: an absent id, and Daughter with her two
    parents for both orders of recording the two edges. *)
Lemma getPerson_resolved_witness :
  getPerson 9 db_family = None
  /\ (exists e, getPerson 4 db_family = Some e
                /\ length (parents e) = 2%nat
                /\ In mother (parents e) /\ In father (parents e))
  /\ (exists e, getPerson 4 db_family_swapped = Some e
                /\ length (parents e) = 2%nat
                /\ In mother (parents e) /\ In father (parents e)).
Proof.
  split; [| split].
  - apply (getPerson_resolved 9 db_family).
    + unfold int4; lia.
    + unfold has_person; simpl; lia.
  - destruct (getPerson_resolved 4 db_family) as (_ & _ & H).
    apply (H mother father (mkRelationship 2 2 4 600)
             (mkRelationship 3 3 4 700)).
    + apply nodupb_NoDup. reflexivity.
    + unfold has_person; simpl; lia.
    + simpl; auto.
    + simpl; auto.
    + reflexivity.
    + reflexivity.
    + simpl. apply Permutation_refl.
  - destruct (getPerson_resolved 4 db_family_swapped) as (_ & _ & H).
    apply (H mother father (mkRelationship 3 2 4 700)
             (mkRelationship 2 3 4 600)).
    + apply nodupb_NoDup. reflexivity.
    + unfold has_person; simpl; lia.
    + simpl; auto.
    + simpl; auto.
    + reflexivity.
    + reflexivity.
    + simpl. apply perm_swap.
Defined.

(** ** The flat family tree *)

Lemma mapR_throw_iff {A B} (f : A -> Result B) (xs : list A) :
  (exists e, mapR f xs = Throw e) <->
  (exists x, In x xs /\ exists e, f x = Throw e).
Proof.
  induction xs as [|a xs IH]; simpl.
  - split; [intros (e & E); discriminate | intros (x & [] & _)].
  - destruct (f a) as [y | e] eqn:Fa; simpl.
    + destruct (mapR f xs) as [ys | e'] eqn:M; simpl.
      * split; [intros (e & E); discriminate |].
        intros (x & [<- | Hx] & e & E); [congruence |].
        destruct IH as [_ IH]. destruct IH as (e' & E'); [| discriminate].
        exists x. split; [assumption | now exists e].
      * split; [intros _ | intros _; now exists e'].
        destruct IH as [IH _]. destruct IH as (x & Hx & H);
          [now exists e' | exists x; auto].
    + split; [intros _ | intros _; now exists e].
      exists a. split; [now left | now exists e].
Qed.

Lemma mapR_Forall2 {A B} (f : A -> Result B) (xs : list A) (ys : list B) :
  mapR f xs = Ok ys <-> Forall2 (fun x y => f x = Ok y) xs ys.
Proof.
  revert ys. induction xs as [|a xs IH]; intros ys; simpl.
  - split.
    + intros E. injection E as <-. constructor.
    + intros H. inversion H. reflexivity.
  - destruct (f a) as [y | e] eqn:Fa; simpl.
    + destruct (mapR f xs) as [ys' | e'] eqn:M; simpl.
      * split.
        -- intros E. injection E as <-. constructor; [assumption |].
           now apply IH.
        -- intros H. inversion H as [|? ? ? ? Hy Hys]; subst.
           apply IH in Hys. congruence.
      * split; [discriminate |].
        intros H. inversion H as [|? ? ? ? Hy Hys]; subst.
        apply IH in Hys. discriminate.
    + split; [discriminate |].
      intros H. inversion H; subst. congruence.
Qed.

Lemma find_person_none (db : Database) (i : Z) :
  find (fun p => id p =? i) (people db) = None <-> ~ has_person db i.
Proof.
  unfold has_person. rewrite in_map_iff. split.
  - intros F (p & E & Hp). apply (find_none _ _ F) in Hp.
    apply Z.eqb_neq in Hp. contradiction.
  - intros H. destruct (find (fun p => id p =? i) (people db)) as [p|] eqn:F;
      [| reflexivity].
    apply find_some in F. destruct F as [Hp E]. apply Z.eqb_eq in E.
    exfalso. apply H. now exists p.
Qed.

Lemma find_person_some (db : Database) (i : Z) (q : Person) :
  find (fun p => id p =? i) (people db) = Some q ->
  In q (people db) /\ id q = i.
Proof.
  intros F. apply find_some in F. now rewrite Z.eqb_eq in F.
Qed.

Lemma find_person_unique (db : Database) (q : Person) :
  NoDup (map id (people db)) -> In q (people db) ->
  find (fun p => id p =? id q) (people db) = Some q.
Proof.
  intros N Hq.
  destruct (find (fun p => id p =? id q) (people db)) as [p|] eqn:F.
  - apply find_some in F. destruct F as [Hp E].
    assert (Hin : In p (filter (fun p => id p =? id q) (people db)))
      by (apply filter_In; auto).
    rewrite (unique_row _ _ N Hq) in Hin. destruct Hin as [<- | []].
    reflexivity.
  - apply find_person_none in F. exfalso. apply F. now apply in_map.
Qed.

Lemma resolve_throw_iff (db : Database) (col : Relationship -> Z)
    (err : Z -> Error) (rels : list Relationship) :
  (exists e,
     mapR (fun rel =>
         match find (fun p => id p =? col rel) (people db) with
         | Some q => Ok q
         | None => Throw (err (col rel))
         end) rels = Throw e)
  <-> exists rel, In rel rels /\ ~ has_person db (col rel).
Proof.
  rewrite mapR_throw_iff. split; intros (rel & Hrel & H); exists rel;
    (split; [assumption |]).
  - apply find_person_none. destruct H as (e & E).
    destruct (find _ (people db)); [discriminate | reflexivity].
  - apply find_person_none in H. rewrite H. eauto.
Qed.

Lemma getFamilyTree_throw_iff (db : Database) :
  (exists e, getFamilyTree db = Throw e) <->
  (exists r, In r (relationships db) /\ half_dangling db r).
Proof.
  unfold getFamilyTree. rewrite mapR_throw_iff. split.
  - intros (person & Hp & e & E).
    assert (Hid : has_person db (id person)) by now apply in_map.
    destruct (mapR _ (filter (fun rel => parent_id rel =? id person) _))
      as [cs | e1] eqn:C; simpl in E.
    + destruct (mapR _ (filter (fun rel => child_id rel =? id person) _))
        as [ps | e2] eqn:P; simpl in E; [discriminate |].
      destruct (proj1 (resolve_throw_iff db parent_id TreeParentNotFound _)
                  (ex_intro _ e2 P)) as (r & Hr & Hn).
      apply filter_In in Hr. destruct Hr as [Hr Er]. apply Z.eqb_eq in Er.
      exists r. split; [assumption |]. right. now rewrite Er.
    + destruct (proj1 (resolve_throw_iff db child_id TreeChildNotFound _)
                  (ex_intro _ e1 C)) as (r & Hr & Hn).
      apply filter_In in Hr. destruct Hr as [Hr Er]. apply Z.eqb_eq in Er.
      exists r. split; [assumption |]. left. now rewrite Er.
  - intros (r & Hr & [[Hp Hn] | [Hc Hn]]).
    + unfold has_person in Hp. apply in_map_iff in Hp.
      destruct Hp as (person & E & Hp). exists person. split; [assumption |].
      destruct (proj2 (resolve_throw_iff db child_id TreeChildNotFound
                  (filter (fun rel => parent_id rel =? id person)
                     (relationships db)))) as (e & C).
      { exists r. split; [| assumption]. apply filter_In.
        split; [assumption |]. apply Z.eqb_eq. congruence. }
      rewrite C. simpl. now exists e.
    + unfold has_person in Hc. apply in_map_iff in Hc.
      destruct Hc as (person & E & Hp). exists person. split; [assumption |].
      destruct (mapR _ (filter (fun rel => parent_id rel =? id person) _))
        as [cs | e1]; simpl; [| now exists e1].
      destruct (proj2 (resolve_throw_iff db parent_id TreeParentNotFound
                  (filter (fun rel => child_id rel =? id person)
                     (relationships db)))) as (e & P).
      { exists r. split; [| assumption]. apply filter_In.
        split; [assumption |]. apply Z.eqb_eq. congruence. }
      rewrite P. simpl. now exists e.
Qed.

Lemma Forall2_right {A B} (R : A -> B -> Prop) (xs : list A) (ys : list B)
    (y : B) :
  Forall2 R xs ys -> In y ys -> exists x, In x xs /\ R x y.
Proof.
  induction 1 as [|x y' xs ys Hxy H IH]; simpl; [contradiction |].
  intros [<- | Hy].
  - exists x. auto.
  - destruct (IH Hy) as (x' & Hx' & Hr). exists x'. auto.
Qed.

Lemma Forall2_left {A B} (R : A -> B -> Prop) (xs : list A) (ys : list B)
    (x : A) :
  Forall2 R xs ys -> In x xs -> exists y, In y ys /\ R x y.
Proof.
  induction 1 as [|x' y xs ys Hxy H IH]; simpl; [contradiction |].
  intros [<- | Hx].
  - exists y. auto.
  - destruct (IH Hx) as (y' & Hy' & Hr). exists y'. auto.
Qed.

Lemma Forall2_map_eq {A B C} (R : A -> B -> Prop) (f : A -> C) (g : B -> C)
    (xs : list A) (ys : list B) :
  (forall x y, R x y -> g y = f x) ->
  Forall2 R xs ys -> map g ys = map f xs.
Proof.
  intros Hfg. induction 1 as [|x y xs ys Hxy H IH]; simpl; [reflexivity |].
  now rewrite (Hfg x y Hxy), IH.
Qed.

Lemma resolve_Forall2 (db : Database) (col : Relationship -> Z)
    (err : Z -> Error) (rels : list Relationship) (qs : list Person) :
  mapR (fun rel =>
      match find (fun p => id p =? col rel) (people db) with
      | Some q => Ok q
      | None => Throw (err (col rel))
      end) rels = Ok qs ->
  Forall2 (fun rel q => find (fun p => id p =? col rel) (people db) = Some q)
    rels qs.
Proof.
  intros M. apply mapR_Forall2 in M.
  eapply Forall2_impl; [| exact M]. intros rel q H. simpl in H.
  destruct (find _ (people db)); [congruence | discriminate].
Qed.

Lemma getFamilyTree_entries (db : Database)
    (data : list PersonWithRelationships) :
  getFamilyTree db = Ok data ->
  Forall2 (fun person e => base e = person /\ resolved_entry db e)
    (people db) data.
Proof.
  unfold getFamilyTree. intros M. apply mapR_Forall2 in M.
  eapply Forall2_impl; [| exact M]. intros person e H. simpl in H.
  destruct (mapR _ (filter (fun rel => parent_id rel =? id person) _))
    as [cs | e1] eqn:C; simpl in H; [| discriminate].
  destruct (mapR _ (filter (fun rel => child_id rel =? id person) _))
    as [ps | e2] eqn:P; simpl in H; [| discriminate].
  injection H as <-. split; [reflexivity |]. split; simpl.
  - exact (resolve_Forall2 db parent_id TreeParentNotFound _ _ P).
  - exact (resolve_Forall2 db child_id TreeChildNotFound _ _ C).
Qed.

Lemma getFamilyTree_base (db : Database)
    (data : list PersonWithRelationships) :
  getFamilyTree db = Ok data -> map base data = people db.
Proof.
  intros M. apply getFamilyTree_entries in M.
  apply (Forall2_map_eq _ (fun p => p) base _ _ (fun x y H => proj1 H)) in M.
  now rewrite map_id in M.
Qed.

Lemma getFamilyTree_resolved (db : Database)
    (data : list PersonWithRelationships) (e : PersonWithRelationships) :
  getFamilyTree db = Ok data -> In e data ->
  In (base e) (people db) /\ resolved_entry db e.
Proof.
  intros M He. apply getFamilyTree_entries in M.
  destruct (Forall2_right _ _ _ e M He) as (person & Hp & Hb & Hr).
  now subst person.
Qed.

Lemma getFamilyTree_ok (db : Database) :
  referential_integrity db -> exists data, getFamilyTree db = Ok data.
Proof.
  intros RI. destruct (getFamilyTree db) as [data | e] eqn:G; [eauto |].
  destruct (proj1 (getFamilyTree_throw_iff db) (ex_intro _ e G))
    as (r & Hr & Hd).
  destruct (RI r Hr) as [Hp Hc]. unfold half_dangling in Hd. tauto.
Qed.

Lemma resolved_parents (db : Database) (e : PersonWithRelationships) :
  resolved_entry db e ->
  map id (parents e)
  = map parent_id
      (filter (fun r => child_id r =? id (base e)) (relationships db))
  /\ (forall q, In q (parents e) ->
                In q (people db) /\ has_edge db (id q) (id (base e)))
  /\ (NoDup (map id (people db)) ->
      forall q, In q (people db) -> has_edge db (id q) (id (base e)) ->
                In q (parents e)).
Proof.
  intros [HP _]. split; [| split].
  - apply (Forall2_map_eq _ _ _ _ _
             (fun r q H => proj2 (find_person_some db _ q H)) HP).
  - intros q Hq. destruct (Forall2_right _ _ _ q HP Hq) as (r & Hr & F).
    apply find_person_some in F. apply filter_In in Hr.
    rewrite Z.eqb_eq in Hr. destruct F as [Hin Eq]. destruct Hr as [Hr Er].
    split; [assumption |]. exists r. auto.
  - intros N q Hq (r & Hr & E1 & E2).
    destruct (Forall2_left _ _ _ r HP) as (q' & Hq' & F).
    { apply filter_In. split; [assumption | now apply Z.eqb_eq]. }
    rewrite E1, (find_person_unique db q N Hq) in F. congruence.
Qed.

Lemma resolved_children (db : Database) (e : PersonWithRelationships) :
  resolved_entry db e ->
  map id (children e)
  = map child_id
      (filter (fun r => parent_id r =? id (base e)) (relationships db))
  /\ (forall q, In q (children e) ->
                In q (people db) /\ has_edge db (id (base e)) (id q))
  /\ (NoDup (map id (people db)) ->
      forall q, In q (people db) -> has_edge db (id (base e)) (id q) ->
                In q (children e)).
Proof.
  intros [_ HC]. split; [| split].
  - apply (Forall2_map_eq _ _ _ _ _
             (fun r q H => proj2 (find_person_some db _ q H)) HC).
  - intros q Hq. destruct (Forall2_right _ _ _ q HC Hq) as (r & Hr & F).
    apply find_person_some in F. apply filter_In in Hr.
    rewrite Z.eqb_eq in Hr. destruct F as [Hin Eq]. destruct Hr as [Hr Er].
    split; [assumption |]. exists r. auto.
  - intros N q Hq (r & Hr & E1 & E2).
    destruct (Forall2_left _ _ _ r HC) as (q' & Hq' & F).
    { apply filter_In. split; [assumption | now apply Z.eqb_eq]. }
    rewrite E2, (find_person_unique db q N Hq) in F. congruence.
Qed.

(** C4.  In a state that meets the schema (unique person ids, every edge
    between existing people) [getFamilyTree] returns one entry per person, in
    table order; the [parents] of the entry of [x] are exactly the people
    [q] with an edge from [q] to [x], one per such edge, and its [children]
    exactly the people [q] with an edge from [x] to [q].  For two people M
    and D and the single edge from M to D the result is M with children [D]
    and no parents, and D with parents [M] and no children. *)
Theorem getFamilyTree_flat (db : Database) :
  (NoDup (map id (people db)) -> referential_integrity db ->
   exists data,
     getFamilyTree db = Ok data
     /\ map base data = people db
     /\ (forall e, In e data ->
           (forall q, In q (parents e) <->
                      In q (people db) /\ has_edge db (id q) (id (base e)))
           /\ (forall q, In q (children e) <->
                         In q (people db) /\ has_edge db (id (base e)) (id q))
           /\ map id (parents e)
              = map parent_id
                  (filter (fun r => child_id r =? id (base e))
                     (relationships db))
           /\ map id (children e)
              = map child_id
                  (filter (fun r => parent_id r =? id (base e))
                     (relationships db))))
  /\ (forall M D r s1 s2,
        id M <> id D -> parent_id r = id M -> child_id r = id D ->
        getFamilyTree (mkDatabase [M; D] [r] s1 s2)
        = Ok [mkPersonWithRelationships M [] [D];
              mkPersonWithRelationships D [M] []]).
Proof.
  split.
  - intros N RI. destruct (getFamilyTree_ok db RI) as (data & G).
    exists data. split; [assumption |].
    split; [now apply getFamilyTree_base |].
    intros e He. destruct (getFamilyTree_resolved db data e G He) as [_ R].
    destruct (resolved_parents db e R) as (P1 & P2 & P3).
    destruct (resolved_children db e R) as (C1 & C2 & C3).
    split; [| split; [| split]]; try assumption.
    + intros q. split; [apply P2 | intros [? ?]; now apply P3].
    + intros q. split; [apply C2 | intros [? ?]; now apply C3].
  - intros M D r s1 s2 N E1 E2. unfold getFamilyTree. simpl.
    assert (F1 : (id D =? id M) = false) by (apply Z.eqb_neq; congruence).
    assert (F2 : (id M =? id D) = false) by now apply Z.eqb_neq.
    rewrite E1, E2, !Z.eqb_refl, F1, F2. simpl.
    rewrite E1, E2, !Z.eqb_refl, F2. reflexivity.
Qed.

(** C4 on the sample family and on Mother and Daughter alone. *)
Lemma getFamilyTree_flat_witness :
  (exists data,
     getFamilyTree db_family = Ok data /\ map base data = people db_family)
  /\ getFamilyTree (mkDatabase [mother; daughter] [mkRelationship 1 2 4 500] 5 2)
     = Ok [mkPersonWithRelationships mother [] [daughter];
           mkPersonWithRelationships daughter [mother] []].
Proof.
  split.
  - destruct (getFamilyTree_flat db_family) as [H _].
    destruct H as (data & G & B & _).
    + apply nodupb_NoDup. reflexivity.
    + apply db_family_wf.
    + exists data. auto.
  - apply (getFamilyTree_flat emptyDB); simpl; [lia | reflexivity ..].
Defined.

(** C10, as the code has it.  [getFamilyTree] throws exactly when some edge
    has one end among the people and the other end missing: an edge is looked
    at only through a person at one of its ends, so an edge with both ends
    missing raises nothing.  When every edge joins existing people the call
    succeeds. *)
Theorem getFamilyTree_dangling (db : Database) :
  ((exists e, getFamilyTree db = Throw e) <->
   (exists r, In r (relationships db) /\ half_dangling db r))
  /\ (referential_integrity db -> exists data, getFamilyTree db = Ok data).
Proof.
  split; [apply getFamilyTree_throw_iff | apply getFamilyTree_ok].
Qed.

(** The amended C10 on the sample family, where every edge joins existing
    people. *)
Lemma getFamilyTree_dangling_witness :
  referential_integrity db_family
  /\ exists data, getFamilyTree db_family = Ok data.
Proof.
  split.
  - apply db_family_wf.
  - apply (getFamilyTree_dangling db_family). apply db_family_wf.
Defined.

(** C10 as stated fails: the edge of [db_stray_edge] names two ids that no
    person has, and [getFamilyTree] returns normally. *)
Lemma getFamilyTree_stray_edge :
  (exists r, In r (relationships db_stray_edge)
             /\ ~ has_person db_stray_edge (parent_id r)
             /\ ~ has_person db_stray_edge (child_id r))
  /\ getFamilyTree db_stray_edge
     = Ok [mkPersonWithRelationships grandma [] []].
Proof.
  split; [| reflexivity].
  exists (mkRelationship 1 7 8 500). unfold has_person. simpl.
  repeat split; [auto | lia | lia].
Qed.

(** ** The tree assembler *)

Lemma db_cycle_reached :
  (s1 <- createRelationship 500 (mkRelationshipInput 1 2) db_people ;;
   s2 <- createRelationship 600 (mkRelationshipInput 2 4) (fst s1) ;;
   s3 <- createRelationship 700 (mkRelationshipInput 4 3) (fst s2) ;;
   s4 <- createRelationship 800 (mkRelationshipInput 3 2) (fst s3) ;;
   Ok (fst s4)) = Ok db_cycle.
Proof. reflexivity. Qed.

Lemma mapO_Forall2 {A B} (f : A -> option B) (xs : list A) (ys : list B) :
  mapO f xs = Some ys <-> Forall2 (fun x y => f x = Some y) xs ys.
Proof.
  revert ys. induction xs as [|a xs IH]; intros ys; simpl.
  - split.
    + intros E. injection E as <-. constructor.
    + intros H. inversion H. reflexivity.
  - destruct (f a) as [y|] eqn:Fa.
    + destruct (mapO f xs) as [ys'|] eqn:M.
      * split.
        -- intros E. injection E as <-. constructor; [assumption |].
           now apply IH.
        -- intros H. inversion H as [|? ? ? ? Hy Hys]; subst.
           apply IH in Hys. congruence.
      * split; [discriminate |].
        intros H. inversion H as [|? ? ? ? Hy Hys]; subst.
        apply IH in Hys. discriminate.
    + split; [discriminate |].
      intros H. inversion H; subst. congruence.
Qed.

Lemma mapO_total {A B} (f : A -> option B) (xs : list A) :
  (forall x, In x xs -> exists y, f x = Some y) ->
  exists ys, mapO f xs = Some ys.
Proof.
  induction xs as [|a xs IH]; simpl; intros H; [eauto |].
  destruct (H a (or_introl eq_refl)) as (y & ->).
  destruct IH as (ys & ->); [intros x Hx; apply H; now right |].
  eauto.
Qed.

Lemma mapO_none {A B} (f : A -> option B) (xs : list A) (x : A) :
  In x xs -> f x = None -> mapO f xs = None.
Proof.
  induction xs as [|a xs IH]; simpl; intros Hx Fx; [contradiction |].
  destruct Hx as [<- | Hx].
  - now rewrite Fx.
  - rewrite (IH Hx Fx). now destruct (f a).
Qed.

Section Assembler.
Variable data : list PersonWithRelationships.

(** One call of [buildTree]: the node carries the person and the level it
    was called with, and its children are the results of the calls on the
    found children, one level down, in order. *)
Lemma buildTree_node (fuel : nat) (p : PersonWithRelationships) (lvl : Z)
    (n : TreeNode) :
  buildTree fuel data p lvl = Some n ->
  person n = p /\ level n = lvl
  /\ exists fuel',
       fuel = S fuel'
       /\ Forall2 (fun q m => buildTree fuel' data q (lvl + 1) = Some m)
            (found_children data p) (tn_children n).
Proof.
  destruct fuel as [|fuel']; simpl; [discriminate |].
  destruct (mapO _ (children p)) as [nodes|] eqn:M; [| discriminate].
  intros E. injection E as <-. simpl.
  split; [reflexivity |]. split; [reflexivity |].
  exists fuel'. split; [reflexivity |].
  apply mapO_Forall2 in M. unfold found_children.
  induction M as [|c y cs ys Hc M IH]; simpl; [constructor |].
  destruct (find (fun x => id (base x) =? id c) data) as [q|].
  - destruct (buildTree fuel' data q (lvl + 1)) as [m|] eqn:B;
      simpl in Hc; [| discriminate].
    injection Hc as <-. simpl. constructor; assumption.
  - injection Hc as <-. simpl. exact IH.
Qed.

Lemma found_children_link (p q : PersonWithRelationships) :
  In q (found_children data p) <-> child_link data p q.
Proof.
  unfold found_children, child_link. rewrite in_flat_map.
  split; intros (c & Hc & H); exists c; (split; [assumption |]).
  - destruct (find _ data) as [q'|]; [| contradiction].
    destruct H as [<- | []]. reflexivity.
  - rewrite H. now left.
Qed.

Lemma child_link_in (p q : PersonWithRelationships) :
  child_link data p q -> In q data.
Proof.
  intros (c & _ & F). now apply find_some in F.
Qed.

(** More fuel does not change a result. *)
Lemma buildTree_mono (fuel : nat) :
  forall fuel' p lvl n,
    (fuel <= fuel')%nat ->
    buildTree fuel data p lvl = Some n ->
    buildTree fuel' data p lvl = Some n.
Proof.
  induction fuel as [|fuel IH]; intros fuel' p lvl n Hle; simpl;
    [discriminate |].
  destruct fuel' as [|fuel']; [lia |]. simpl.
  destruct (mapO _ (children p)) as [nodes|] eqn:M; [| discriminate].
  intros E. injection E as <-.
  replace (mapO _ (children p)) with (Some nodes); [reflexivity |].
  symmetry. apply mapO_Forall2. apply mapO_Forall2 in M.
  eapply Forall2_impl; [| exact M]. intros c y Hc. simpl in *.
  destruct (find _ data) as [q|]; [| assumption].
  destruct (buildTree fuel data q (lvl + 1)) as [m|] eqn:B;
    [| discriminate].
  rewrite (IH fuel' q (lvl + 1) m); [assumption | lia | assumption].
Qed.
End Assembler.

Section Recursion.
Variable data : list PersonWithRelationships.

(** A call that returns has made, one level down and with one unit of
    fuel less, a call that returns for every child link. *)
Lemma buildTree_link (fuel : nat) (p q : PersonWithRelationships)
    (lvl : Z) (n : TreeNode) :
  buildTree (S fuel) data p lvl = Some n -> child_link data p q ->
  exists m, In m (tn_children n)
            /\ buildTree fuel data q (lvl + 1) = Some m.
Proof.
  intros B L. apply buildTree_node in B.
  destruct B as (_ & _ & fuel' & E & F). injection E as <-.
  apply found_children_link in L.
  exact (Forall2_left _ _ _ q F L).
Qed.

Lemma buildTree_path (p q : PersonWithRelationships) :
  child_path data p q ->
  forall fuel lvl n,
    buildTree fuel data p lvl = Some n ->
    exists fuel' lvl' m,
      (fuel' < fuel)%nat /\ buildTree fuel' data q lvl' = Some m.
Proof.
  induction 1 as [p q L | p q r L P IH]; intros fuel lvl n B.
  - destruct fuel as [|fuel]; [discriminate |].
    destruct (buildTree_link fuel p q lvl n B L) as (m & _ & Bm).
    exists fuel, (lvl + 1), m. split; [lia | assumption].
  - destruct fuel as [|fuel]; [discriminate |].
    destruct (buildTree_link fuel p q lvl n B L) as (m & _ & Bm).
    destruct (IH fuel (lvl + 1) m Bm) as (fuel' & lvl' & m' & Hlt & Bm').
    exists fuel', lvl', m'. split; [lia | assumption].
Qed.

(** There is no path guard: on a person that lies on a cycle of child
    links no amount of fuel is enough. *)
Lemma buildTree_cycle (q : PersonWithRelationships) :
  child_path data q q ->
  forall fuel lvl, buildTree fuel data q lvl = None.
Proof.
  intros C fuel. induction fuel as [fuel IH] using lt_wf_ind. intros lvl.
  destruct (buildTree fuel data q lvl) as [n|] eqn:B; [| reflexivity].
  destruct (buildTree_path q q C fuel lvl n B)
    as (fuel' & lvl' & m & Hlt & Bm).
  rewrite (IH fuel' Hlt lvl') in Bm. discriminate.
Qed.

Lemma buildTree_reaches_cycle (p q : PersonWithRelationships) :
  p = q \/ child_path data p q -> child_path data q q ->
  forall fuel lvl, buildTree fuel data p lvl = None.
Proof.
  intros [-> | P] C fuel lvl; [now apply buildTree_cycle |].
  destruct (buildTree fuel data p lvl) as [n|] eqn:B; [| reflexivity].
  destruct (buildTree_path p q P fuel lvl n B)
    as (fuel' & lvl' & m & _ & Bm).
  rewrite (buildTree_cycle q C fuel' lvl') in Bm. discriminate.
Qed.

Lemma treeStructure_cycle (p q : PersonWithRelationships) :
  In p data -> parents p = [] ->
  p = q \/ child_path data p q -> child_path data q q ->
  forall fuel, treeStructure fuel data = None.
Proof.
  intros Hp Hroot P C fuel. unfold treeStructure.
  destruct data as [|d data'] eqn:D; [contradiction |].
  rewrite <- D in *. replace (Nat.eqb (length data) 0) with false
    by (rewrite D; reflexivity).
  apply (mapO_none _ _ p).
  - apply filter_In. split; [assumption |]. now rewrite Hroot.
  - now apply (buildTree_reaches_cycle p q).
Qed.

(** Where every child link goes down in some rank, a call returns as soon
    as the fuel exceeds the rank of its person. *)
Variable rank : PersonWithRelationships -> nat.
Hypothesis ranked :
  forall p q, In p data -> child_link data p q -> (rank q < rank p)%nat.

Lemma buildTree_ranked (fuel : nat) :
  forall p lvl,
    In p data -> (rank p < fuel)%nat ->
    exists n, buildTree fuel data p lvl = Some n.
Proof.
  induction fuel as [|fuel IH]; intros p lvl Hp Hr; [lia |]. simpl.
  destruct (mapO_total
    (fun child =>
       match find (fun q => id (base q) =? id child) data with
       | Some cwr => option_map Some (buildTree fuel data cwr (lvl + 1))
       | None => Some None
       end) (children p)) as (nodes & ->); [| eauto].
  intros c Hc. destruct (find _ data) as [q|] eqn:F; [| eauto].
  assert (L : child_link data p q) by (exists c; auto).
  destruct (IH q (lvl + 1)) as (m & ->).
  - exact (child_link_in data p q L).
  - specialize (ranked p q Hp L). lia.
  - simpl. eauto.
Qed.

Lemma treeStructure_ranked :
  exists forest,
    treeStructure (S (list_max (map rank data))) data = Some forest.
Proof.
  unfold treeStructure. destruct (Nat.eqb (length data) 0); [eauto |].
  apply mapO_total. intros p Hp. apply filter_In in Hp.
  destruct Hp as [Hp _]. apply buildTree_ranked; [assumption |].
  assert (H : (list_max (map rank data) <= list_max (map rank data))%nat)
    by lia.
  rewrite list_max_le in H. rewrite Forall_forall in H.
  specialize (H (rank p) (in_map rank data p Hp)). lia.
Qed.
End Recursion.

Lemma treeStructure_mono (data : list PersonWithRelationships)
    (fuel fuel' : nat) (forest : list TreeNode) :
  (fuel <= fuel')%nat ->
  treeStructure fuel data = Some forest ->
  treeStructure fuel' data = Some forest.
Proof.
  unfold treeStructure. intros Hle.
  destruct (Nat.eqb (length data) 0); [trivial |].
  rewrite !mapO_Forall2. intros F.
  eapply Forall2_impl; [| exact F]. intros p n B. simpl in *.
  now apply (buildTree_mono data fuel).
Qed.

Lemma data_family_flat : getFamilyTree db_family = Ok data_family.
Proof. reflexivity. Qed.

Lemma data_cycle_flat : getFamilyTree db_cycle = Ok data_cycle.
Proof. reflexivity. Qed.

Lemma data_family_ranked (p q : PersonWithRelationships) :
  In p data_family -> child_link data_family p q ->
  (rank_by_id q < rank_by_id p)%nat.
Proof.
  intros Hp (c & Hc & F). simpl in Hp.
  destruct Hp as [<- | [<- | [<- | [<- | []]]]]; simpl in Hc;
    repeat (destruct Hc as [<- | Hc]); try contradiction;
    vm_compute in F; injection F as <-; vm_compute; lia.
Qed.

Lemma data_cycle_root_link : child_path data_cycle c_grandma c_mother.
Proof.
  apply child_path_one. exists mother. split; [simpl; auto | reflexivity].
Qed.

Lemma data_cycle_loop : child_path data_cycle c_mother c_mother.
Proof.
  apply (child_path_step data_cycle c_mother c_daughter).
  { exists daughter. split; [simpl; auto | reflexivity]. }
  apply (child_path_step data_cycle c_daughter c_father).
  { exists father. split; [simpl; auto | reflexivity]. }
  apply child_path_one. exists mother. split; [simpl; auto | reflexivity].
Qed.

(** C2, as the code has it.  [buildTree] keeps no record of the path it is
    on.  On an input whose child links all go down in some rank, that is on
    an acyclic input, the assembler returns a forest once the depth allowed
    exceeds the ranks; on an input where a root reaches a person that lies on
    a cycle of child links, it returns for no depth, however large. *)
Theorem treeStructure_termination (data : list PersonWithRelationships) :
  (forall rank : PersonWithRelationships -> nat,
     (forall p q, In p data -> child_link data p q ->
                  (rank q < rank p)%nat) ->
     exists fuel forest,
       forall fuel', (fuel <= fuel')%nat ->
                     treeStructure fuel' data = Some forest)
  /\ (forall p q,
        In p data -> parents p = [] ->
        p = q \/ child_path data p q -> child_path data q q ->
        forall fuel, treeStructure fuel data = None).
Proof.
  split.
  - intros rank R. destruct (treeStructure_ranked data rank R) as (forest & T).
    exists (S (list_max (map rank data))), forest. intros fuel' Hle.
    exact (treeStructure_mono data _ fuel' forest Hle T).
  - apply treeStructure_cycle.
Qed.

(** The amended C2 on the sample family, which is acyclic, and on the
    sample cycle. *)
Lemma treeStructure_termination_witness :
  (exists fuel forest,
     forall fuel', (fuel <= fuel')%nat ->
                   treeStructure fuel' data_family = Some forest)
  /\ (forall fuel, treeStructure fuel data_cycle = None).
Proof.
  split.
  - apply (treeStructure_termination data_family) with (rank := rank_by_id).
    exact data_family_ranked.
  - apply (treeStructure_termination data_cycle) with
      (p := c_grandma) (q := c_mother).
    + simpl. auto.
    + reflexivity.
    + right. exact data_cycle_root_link.
    + exact data_cycle_loop.
Defined.

(** C2 as stated fails: in [db_cycle], reached through [createRelationship]
    alone, the root Grandma has the child Mother, who lies on a cycle, and
    the assembler returns a forest for no depth of recursion. *)
Lemma treeStructure_cycle_diverges :
  getFamilyTree db_cycle = Ok data_cycle
  /\ In c_grandma data_cycle /\ parents c_grandma = []
  /\ child_path data_cycle c_grandma c_mother
  /\ child_path data_cycle c_mother c_mother
  /\ forall fuel, treeStructure fuel data_cycle = None.
Proof.
  split; [reflexivity |]. split; [simpl; auto |]. split; [reflexivity |].
  split; [exact data_cycle_root_link |].
  split; [exact data_cycle_loop |].
  apply (treeStructure_cycle data_cycle c_grandma c_mother).
  - simpl. auto.
  - reflexivity.
  - right. exact data_cycle_root_link.
  - exact data_cycle_loop.
Qed.

(** ** The assembled forest *)

Lemma in_tree_trans (m n t : TreeNode) :
  in_tree m n -> in_tree n t -> in_tree m t.
Proof.
  intros Hm Hn. induction Hn as [| t c Hc Hn IH]; [assumption |].
  exact (in_tree_child m t c Hc IH).
Qed.

Section Forest.
Variable data : list PersonWithRelationships.

(** Every node of a tree that [buildTree] returned was itself returned by
    a call of [buildTree] on its person. *)
Lemma in_tree_built (n t : TreeNode) :
  in_tree n t ->
  forall fuel p lvl,
    buildTree fuel data p lvl = Some t ->
    exists fuel' lvl', buildTree fuel' data (person n) lvl' = Some n.
Proof.
  induction 1 as [| t c Hc Hn IH]; intros fuel p lvl B.
  - exists fuel, lvl. destruct (buildTree_node data fuel p lvl n B) as [-> _].
    assumption.
  - destruct (buildTree_node data fuel p lvl t B)
      as (_ & _ & fuel' & _ & F).
    destruct (Forall2_right _ _ _ c F Hc) as (q & _ & Bc).
    exact (IH fuel' q (lvl + 1) Bc).
Qed.

Lemma in_tree_data (n t : TreeNode) :
  in_tree n t ->
  forall fuel p lvl,
    buildTree fuel data p lvl = Some t -> In p data ->
    In (person n) data.
Proof.
  induction 1 as [| t c Hc Hn IH]; intros fuel p lvl B Hp.
  - destruct (buildTree_node data fuel p lvl n B) as [-> _]. assumption.
  - destruct (buildTree_node data fuel p lvl t B)
      as (_ & _ & fuel' & _ & F).
    destruct (Forall2_right _ _ _ c F Hc) as (q & Hq & Bc).
    apply found_children_link in Hq.
    exact (IH fuel' q (lvl + 1) Bc (child_link_in data p q Hq)).
Qed.

(** Under a node, every child link of its person has a child node, one
    level down. *)
Lemma node_children (fuel : nat) (p q : PersonWithRelationships) (lvl : Z)
    (n : TreeNode) :
  buildTree fuel data p lvl = Some n -> child_link data p q ->
  exists m, In m (tn_children n) /\ person m = q
            /\ level m = level n + 1.
Proof.
  intros B L. destruct (buildTree_node data fuel p lvl n B)
    as (_ & El & fuel' & Ef & _). subst fuel.
  destruct (buildTree_link data fuel' p q lvl n B L) as (m & Hm & Bm).
  destruct (buildTree_node data fuel' q (lvl + 1) m Bm) as (Ep & El' & _).
  exists m. rewrite El. auto.
Qed.

(** The roots of the forest are the entries without parents, each built
    at level 0, in the order of the input. *)
Lemma treeStructure_roots (fuel : nat) (forest : list TreeNode) :
  treeStructure fuel data = Some forest ->
  Forall2 (fun p t => buildTree fuel data p 0 = Some t)
    (filter (fun q => Nat.eqb (length (parents q)) 0) data) forest.
Proof.
  unfold treeStructure. destruct data as [|d data']; simpl.
  - intros E. injection E as <-. constructor.
  - intros M. now apply mapO_Forall2 in M.
Qed.

Lemma in_forest_built (fuel : nat) (forest : list TreeNode) (n : TreeNode) :
  treeStructure fuel data = Some forest -> in_forest n forest ->
  In (person n) data
  /\ exists fuel' lvl', buildTree fuel' data (person n) lvl' = Some n.
Proof.
  intros T (t & Ht & Hn). apply treeStructure_roots in T.
  destruct (Forall2_right _ _ _ t T Ht) as (p & Hp & B).
  apply filter_In in Hp. destruct Hp as [Hp _]. split.
  - exact (in_tree_data n t Hn fuel p 0 B Hp).
  - exact (in_tree_built n t Hn fuel p 0 B).
Qed.
End Forest.

Lemma find_base (data : list PersonWithRelationships) (i : Z) :
  option_map base (find (fun y => id (base y) =? i) data)
  = find (fun p => id p =? i) (map base data).
Proof.
  induction data as [|e data IH]; simpl; [reflexivity |].
  destruct (id (base e) =? i); [reflexivity | exact IH].
Qed.

Lemma filter_none_forallb {A} (f : A -> bool) (l : list A) :
  Nat.eqb (length (filter f l)) 0 = forallb (fun x => negb (f x)) l.
Proof.
  induction l as [|a l IH]; simpl; [reflexivity |].
  destruct (f a); simpl; [reflexivity | exact IH].
Qed.

Lemma map_filter_base {A B} (g : A -> B) (f : A -> bool) (h : B -> bool)
    (l : list A) :
  (forall x, In x l -> f x = h (g x)) ->
  map g (filter f l) = filter h (map g l).
Proof.
  induction l as [|a l IH]; simpl; intros H; [reflexivity |].
  rewrite <- (H a (or_introl eq_refl)).
  destruct (f a); simpl; rewrite IH; auto.
Qed.

Lemma NoDup_map_filter {A B} (g : A -> B) (f : A -> bool) (l : list A) :
  NoDup (map g l) -> NoDup (map g (filter f l)).
Proof.
  induction l as [|a l IH]; simpl; intros N; [constructor |].
  inversion N as [|? ? Hn N']; subst.
  destruct (f a); simpl; [| now apply IH].
  constructor; [| now apply IH].
  intros Hin. apply Hn. apply in_map_iff in Hin.
  destruct Hin as (x & E & Hx). apply filter_In in Hx.
  rewrite <- E. apply in_map. tauto.
Qed.

Section Dataset.
Variable db : Database.
Variable data : list PersonWithRelationships.
Hypothesis key : NoDup (map id (people db)).
Hypothesis references : referential_integrity db.
Hypothesis flat : getFamilyTree db = Ok data.

Lemma same_id_same_person (x y : Person) :
  In x (people db) -> In y (people db) -> id x = id y -> x = y.
Proof.
  intros Hx Hy E.
  pose proof (find_person_unique db x key Hx) as Fx.
  pose proof (find_person_unique db y key Hy) as Fy.
  rewrite E in Fx. congruence.
Qed.

Lemma entry_lookup (x : Person) :
  In x (people db) ->
  exists e, find (fun y => id (base y) =? id x) data = Some e
            /\ In e data /\ base e = x.
Proof.
  intros Hx. pose proof (find_base data (id x)) as F.
  rewrite (getFamilyTree_base db data flat) in F.
  rewrite (find_person_unique db x key Hx) in F.
  destruct (find _ data) as [e|] eqn:Fe; [| discriminate].
  injection F as F. exists e. split; [reflexivity |].
  apply find_some in Fe. tauto.
Qed.

Lemma entry_person (e : PersonWithRelationships) :
  In e data -> In (base e) (people db).
Proof.
  intros He. rewrite <- (getFamilyTree_base db data flat).
  now apply in_map.
Qed.

(** An edge is a child link between the entries of its two ends. *)
Lemma edge_link (e : PersonWithRelationships) (c : Z) :
  In e data -> has_edge db (id (base e)) c ->
  exists q, child_link data e q /\ id (base q) = c.
Proof.
  intros He (r & Hr & E1 & E2).
  destruct (references r Hr) as [_ Hc]. unfold has_person in Hc.
  apply in_map_iff in Hc. destruct Hc as (x & Ex & Hx).
  destruct (getFamilyTree_resolved db data e flat He) as [_ R].
  destruct (resolved_children db e R) as (_ & _ & C).
  assert (Hin : In x (children e)).
  { apply (C key x Hx). exists r. repeat split; congruence. }
  destruct (entry_lookup x Hx) as (q & F & _ & B).
  exists q. split; [exists x; auto | congruence].
Qed.

Lemma link_edge (e q : PersonWithRelationships) :
  In e data -> child_link data e q ->
  has_edge db (id (base e)) (id (base q)).
Proof.
  intros He (c & Hc & F).
  destruct (getFamilyTree_resolved db data e flat He) as [_ R].
  destruct (resolved_children db e R) as (_ & C & _).
  destruct (C c Hc) as [_ E]. apply find_some in F.
  destruct F as [_ F]. apply Z.eqb_eq in F. now rewrite F.
Qed.

Lemma root_entry (e : PersonWithRelationships) :
  In e data ->
  Nat.eqb (length (parents e)) 0 = no_parent_edge db (base e).
Proof.
  intros He. destruct (getFamilyTree_resolved db data e flat He) as [_ R].
  destruct (resolved_parents db e R) as (E & _).
  apply (f_equal (@length Z)) in E. rewrite !length_map in E.
  rewrite E. apply filter_none_forallb.
Qed.

Lemma root_people :
  map base (filter (fun q => Nat.eqb (length (parents q)) 0) data)
  = filter (no_parent_edge db) (people db).
Proof.
  rewrite <- (getFamilyTree_base db data flat).
  apply map_filter_base. exact root_entry.
Qed.
End Dataset.

Lemma forallb_false {A} (f : A -> bool) (l : list A) :
  forallb f l = false -> exists x, In x l /\ f x = false.
Proof.
  induction l as [|a l IH]; simpl; [discriminate |].
  destruct (f a) eqn:Fa; simpl.
  - intros H. destruct (IH H) as (x & Hx & Fx). exists x. auto.
  - intros _. exists a. auto.
Qed.

Section Acyclic.
Variable db : Database.
Variable data : list PersonWithRelationships.
Variable rk : Z -> nat.
Variable fuel : nat.
Variable forest : list TreeNode.
Hypothesis key : NoDup (map id (people db)).
Hypothesis references : referential_integrity db.
Hypothesis acyclic :
  forall r, In r (relationships db) ->
            (rk (child_id r) < rk (parent_id r))%nat.
Hypothesis flat : getFamilyTree db = Ok data.
Hypothesis built : treeStructure fuel data = Some forest.

Lemma data_ranked (p q : PersonWithRelationships) :
  In p data -> child_link data p q ->
  (rk (id (base q)) < rk (id (base p)))%nat.
Proof.
  intros Hp L.
  destruct (link_edge db data flat p q Hp L)
    as (r & Hr & E1 & E2).
  rewrite <- E1, <- E2. now apply acyclic.
Qed.

(** Under every node of a parent there is a child node for the child of
    each of its edges. *)
Lemma edge_node (p c : Z) (n : TreeNode) :
  has_edge db p c -> in_forest n forest -> id (base (person n)) = p ->
  exists m, In m (tn_children n) /\ id (base (person m)) = c
            /\ level m = level n + 1.
Proof.
  intros E Hn Ep. subst p.
  destruct (in_forest_built data fuel forest n built Hn)
    as (Hd & fuel' & lvl' & B).
  destruct (edge_link db data key references flat (person n) c Hd E)
    as (q & L & Eq).
  destruct (node_children data fuel' (person n) q lvl' n B L)
    as (m & Hm & Em & El).
  exists m. rewrite Em. auto.
Qed.

(** Every person has a node: a root of the forest, or a child node under
    a node of one of its parents. *)
Lemma person_node (k : nat) :
  forall x,
    In x (people db) ->
    (list_max (map (fun p => rk (id p)) (people db)) - rk (id x) < k)%nat ->
    exists n, in_forest n forest /\ base (person n) = x.
Proof.
  induction k as [|k IH]; intros x Hx Hk; [lia |].
  destruct (no_parent_edge db x) eqn:R.
  - destruct (entry_lookup db data key flat x Hx) as (e & _ & He & Eb).
    assert (Hroot : In e (filter (fun q => Nat.eqb (length (parents q)) 0)
                            data)).
    { apply filter_In. split; [assumption |].
      rewrite (root_entry db data flat e He), Eb. assumption. }
    destruct (Forall2_left _ _ _ e
                (treeStructure_roots data fuel forest built) Hroot)
      as (t & Ht & B).
    exists t. split.
    + exists t. split; [assumption | constructor].
    + destruct (buildTree_node data fuel e 0 t B) as [-> _]. assumption.
  - apply forallb_false in R. destruct R as (r & Hr & Er).
    apply negb_false_iff, Z.eqb_eq in Er.
    destruct (references r Hr) as [Hp _]. unfold has_person in Hp.
    apply in_map_iff in Hp. destruct Hp as (P & EP & HP).
    assert (Hmax : (rk (id P)
                    <= list_max (map (fun p => rk (id p)) (people db)))%nat).
    { assert (H : (list_max (map (fun p => rk (id p)) (people db))
                   <= list_max (map (fun p => rk (id p)) (people db)))%nat)
        by lia.
      rewrite list_max_le, Forall_forall in H. apply H.
      apply (in_map (fun p => rk (id p))). assumption. }
    pose proof (acyclic r Hr) as Hlt. rewrite Er, <- EP in Hlt.
    destruct (IH P HP) as (n & Hn & En); [lia |].
    assert (E : has_edge db (id P) (id x)).
    { exists r. auto. }
    destruct (in_forest_built data fuel forest n built Hn)
      as (Hd & fuel' & lvl' & B).
    rewrite <- En in E.
    destruct (edge_link db data key references flat (person n) (id x) Hd E)
      as (q & L & Eq).
    destruct (node_children data fuel' (person n) q lvl' n B L)
      as (m & Hm & Em & _).
    exists m. split.
    + destruct Hn as (t & Ht & Hn). exists t. split; [assumption |].
      apply (in_tree_trans m n t); [| assumption].
      exact (in_tree_child m n m Hm (in_tree_root m)).
    + rewrite Em. apply same_id_same_person with (db := db);
        try assumption.
      apply (entry_person db data flat).
      exact (child_link_in data (person n) q L).
Qed.
End Acyclic.

(** C3.  For a dataset that meets the schema and whose edges are acyclic
    (every edge goes down in some rank), the assembler, run on the flat list
    of [getFamilyTree], returns a forest in which: the roots are exactly the
    people that no edge names as child, each once, in table order and at
    level 0; every node carries a fully resolved entry of the flat list; and
    for every edge from [p] to [c], [p] has a node, and under every node of
    [p] there is a child node for [c] one level down, so that a person with
    several parents has a node under each of them. *)
Theorem treeStructure_forest (db : Database) (rk : Z -> nat) :
  NoDup (map id (people db)) ->
  referential_integrity db ->
  (forall r, In r (relationships db) ->
             (rk (child_id r) < rk (parent_id r))%nat) ->
  exists data fuel forest,
    getFamilyTree db = Ok data
    /\ treeStructure fuel data = Some forest
    /\ map (fun t => base (person t)) forest
       = filter (no_parent_edge db) (people db)
    /\ Forall (fun t => level t = 0) forest
    /\ NoDup (map (fun t => id (base (person t))) forest)
    /\ (forall n, in_forest n forest -> In (person n) data)
    /\ (forall p c,
          has_edge db p c ->
          (exists n, in_forest n forest /\ id (base (person n)) = p)
          /\ (forall n,
                in_forest n forest -> id (base (person n)) = p ->
                exists m, In m (tn_children n)
                          /\ id (base (person m)) = c
                          /\ level m = level n + 1)).
Proof.
  intros key references acyclic.
  destruct (getFamilyTree_ok db references) as (data & flat).
  destruct (treeStructure_ranked data (fun e => rk (id (base e)))
              (data_ranked db data rk acyclic flat)) as (forest & built).
  exists data, (S (list_max (map (fun e => rk (id (base e))) data))), forest.
  pose proof (treeStructure_roots data _ forest built) as Roots.
  assert (Eroots : map (fun t => base (person t)) forest
                   = filter (no_parent_edge db) (people db)).
  { rewrite <- (root_people db data flat).
    apply (Forall2_map_eq _ base (fun t => base (person t)) _ _
             (fun p t B => f_equal base
                (proj1 (buildTree_node data _ p 0 t B))) Roots). }
  split; [assumption |]. split; [assumption |]. split; [assumption |].
  split; [| split; [| split]].
  - apply Forall_forall. intros t Ht.
    destruct (Forall2_right _ _ _ t Roots Ht) as (p & _ & B).
    now destruct (buildTree_node data _ p 0 t B) as (_ & El & _).
  - rewrite <- (map_map (fun t => base (person t)) id), Eroots.
    now apply NoDup_map_filter.
  - intros n Hn. now destruct (in_forest_built data _ forest n built Hn).
  - intros p c E. split.
    + destruct E as (r & Hr & E1 & E2).
      destruct (references r Hr) as [Hp _]. unfold has_person in Hp.
      apply in_map_iff in Hp. destruct Hp as (P & EP & HP).
      destruct (person_node db data rk _ forest key references acyclic flat
                  built
                  (S (list_max (map (fun p => rk (id p)) (people db))
                      - rk (id P))) P HP) as (n & Hn & En); [lia |].
      exists n. split; [assumption |]. rewrite En. congruence.
    + intros n Hn Ep.
      exact (edge_node db data _ forest key references flat built
               p c n E Hn Ep).
Qed.

(** C3 on the sample family: the roots are Grandma and Father, and
    Daughter has a node under Mother and a node under Father. *)
Lemma treeStructure_forest_witness :
  exists data fuel forest,
    getFamilyTree db_family = Ok data
    /\ treeStructure fuel data = Some forest
    /\ map (fun t => base (person t)) forest = [grandma; father]
    /\ (forall n, in_forest n forest -> id (base (person n)) = 2 ->
          exists m, In m (tn_children n) /\ id (base (person m)) = 4
                    /\ level m = level n + 1)
    /\ (forall n, in_forest n forest -> id (base (person n)) = 3 ->
          exists m, In m (tn_children n) /\ id (base (person m)) = 4
                    /\ level m = level n + 1).
Proof.
  destruct (treeStructure_forest db_family (fun i => Z.to_nat (10 - i)))
    as (data & fuel & forest & G & T & R & _ & _ & _ & E).
  - apply nodupb_NoDup. reflexivity.
  - apply db_family_wf.
  - intros r Hr. simpl in Hr.
    destruct Hr as [<- | [<- | [<- | []]]]; simpl; lia.
  - exists data, fuel, forest.
    split; [exact G |]. split; [exact T |]. split; [exact R |]. split.
    + apply (E 2 4). exists (mkRelationship 2 2 4 600). simpl. auto.
    + apply (E 3 4). exists (mkRelationship 3 3 4 700). simpl. auto.
Defined.

(** ** The handlers keep the constraints of the schema *)

Lemma NoDup_snoc (l : list Z) (x : Z) :
  NoDup l -> ~ In x l -> NoDup (l ++ [x]).
Proof.
  intros N H. apply (Permutation_NoDup (Permutation_cons_append l x)).
  now constructor.
Qed.

Lemma emptyDB_wf : db_wf emptyDB.
Proof. apply db_wfb_sound. reflexivity. Qed.

Lemma insert_person_wf (now : Date) (input : CreatePersonInput)
    (db : Database) :
  db_wf db -> db_wf (fst (insert_person now input db)).
Proof.
  intros [K1 K2 R S1 S2]. constructor; simpl.
  - rewrite map_app. simpl. apply NoDup_snoc; [assumption |].
    intros H. apply in_map_iff in H. destruct H as (p & E & Hp).
    apply S1 in Hp. lia.
  - assumption.
  - intros r Hr. destruct (R r Hr) as [Hp Hc]. unfold has_person in *.
    simpl. rewrite map_app, !in_app_iff. auto.
  - intros p Hp. apply in_app_iff in Hp. destruct Hp as [Hp | [<- | []]].
    + apply S1 in Hp. lia.
    + simpl. lia.
  - assumption.
Qed.

Lemma insert_relationship_wf (now : Date) (p c : Z) (db : Database) :
  db_wf db -> has_person db p -> has_person db c ->
  db_wf (fst (insert_relationship now p c db)).
Proof.
  intros [K1 K2 R S1 S2] Hp Hc. constructor; simpl.
  - assumption.
  - rewrite map_app. simpl. apply NoDup_snoc; [assumption |].
    intros H. apply in_map_iff in H. destruct H as (r & E & Hr).
    apply S2 in Hr. lia.
  - intros r Hr. apply in_app_iff in Hr. destruct Hr as [Hr | [<- | []]].
    + exact (R r Hr).
    + simpl. split; assumption.
  - assumption.
  - intros r Hr. apply in_app_iff in Hr. destruct Hr as [Hr | [<- | []]].
    + apply S2 in Hr. lia.
    + simpl. lia.
Qed.

Lemma delete_person_wf (i : Z) (db : Database) :
  db_wf db -> db_wf (delete_person i db).
Proof.
  intros [K1 K2 R S1 S2]. constructor; simpl.
  - now apply NoDup_map_filter.
  - now apply NoDup_map_filter.
  - intros r Hr. simpl in Hr. apply filter_In in Hr. destruct Hr as [Hr Hn].
    apply andb_true_iff in Hn. rewrite !negb_true_iff, !Z.eqb_neq in Hn.
    destruct (R r Hr) as [Hp Hc]. unfold has_person in *. simpl.
    rewrite in_map_iff in Hp, Hc.
    destruct Hp as (x & Ex & Hx). destruct Hc as (y & Ey & Hy).
    split; apply in_map_iff; [exists x | exists y];
      (split; [assumption |]); apply filter_In;
      (split; [assumption |]); apply negb_true_iff, Z.eqb_neq; lia.
  - intros p Hp. apply filter_In in Hp. now apply S1.
  - intros r Hr. apply filter_In in Hr. now apply S2.
Qed.

Lemma delete_relationship_wf (p c : Z) (db : Database) :
  db_wf db -> db_wf (fst (delete_relationship p c db)).
Proof.
  intros [K1 K2 R S1 S2]. constructor; simpl.
  - assumption.
  - now apply NoDup_map_filter.
  - intros r Hr. simpl in Hr. apply filter_In in Hr. now apply R.
  - assumption.
  - intros r Hr. apply filter_In in Hr. now apply S2.
Qed.

Lemma update_person_ids (u : UpdateData) (i : Z) (db : Database) :
  Permutation (map id (people (fst (update_person u i db))))
    (map id (people db)).
Proof.
  rewrite (Permutation_map id (update_person_rows u i db)), map_map.
  apply Permutation_refl'. apply map_ext. intros p.
  now destruct (id p =? i).
Qed.

Lemma update_person_in (u : UpdateData) (i : Z) (db : Database)
    (q : Person) :
  In q (people (fst (update_person u i db))) ->
  exists q', In q' (people db) /\ id q = id q'
             /\ created_at q = created_at q'
             /\ (id q' <> i -> q = q').
Proof.
  intros Hq. apply (Permutation_in _ (update_person_rows u i db)) in Hq.
  apply in_map_iff in Hq. destruct Hq as (q' & E & Hq').
  exists q'. split; [assumption |].
  destruct (id q' =? i) eqn:I; subst q; simpl.
  - apply Z.eqb_eq in I. repeat split; congruence.
  - auto.
Qed.

Lemma update_person_wf (u : UpdateData) (i : Z) (db : Database) :
  db_wf db -> db_wf (fst (update_person u i db)).
Proof.
  intros [K1 K2 R S1 S2]. constructor.
  - apply (Permutation_NoDup (Permutation_sym (update_person_ids u i db))).
    assumption.
  - assumption.
  - intros r Hr. unfold has_person.
    destruct (R r Hr) as [Hp Hc]. split;
      apply (Permutation_in _ (Permutation_sym (update_person_ids u i db)));
      assumption.
  - intros p Hp. destruct (update_person_in u i db p Hp) as (q & Hq & E & _).
    rewrite E. now apply S1.
  - assumption.
Qed.

Lemma step_wf (db db' : Database) : db_wf db -> step db db' -> db_wf db'.
Proof.
  intros W [now input p E | now input p E | i b E | now input r E
            | input b E].
  - injection E as <- _. now apply insert_person_wf.
  - unfold updatePerson in E.
    destruct (Nat.eqb (length (select_person db (up_id input))) 0);
      [discriminate |].
    injection E as <- _. now apply (update_person_wf _ (up_id input)).
  - unfold deletePerson in E.
    destruct (Nat.eqb (length (select_person db i)) 0); [discriminate |].
    injection E as <- _. now apply delete_person_wf.
  - unfold createRelationship in E.
    destruct (in_parent_id input =? in_child_id input); [discriminate |].
    destruct (Nat.eqb (length (select_person db (in_parent_id input))) 0)
      eqn:Hp; [discriminate |].
    destruct (Nat.eqb (length (select_person db (in_child_id input))) 0)
      eqn:Hc; [discriminate |].
    destruct (Nat.ltb 0 (length (select_relationship db _ _)));
      [discriminate |].
    destruct (Nat.ltb 0 (length (select_relationship db _ _)));
      [discriminate |].
    apply select_person_some in Hp, Hc. injection E as <- _.
    now apply insert_relationship_wf.
  - injection E as <- _.
    now apply (delete_relationship_wf (in_parent_id input)
                 (in_child_id input)).
Qed.

(** Every state of the application meets the constraints of the schema. *)
Lemma reachable_wf (db : Database) : reachable db -> db_wf db.
Proof.
  induction 1 as [| db db' _ IH S]; [exact emptyDB_wf |].
  exact (step_wf db db' IH S).
Qed.

(** In every state of the application the flat family tree is returned,
    with one entry per person. *)
Lemma getFamilyTree_reachable (db : Database) :
  reachable db ->
  exists data, getFamilyTree db = Ok data /\ map base data = people db.
Proof.
  intros H. apply reachable_wf in H.
  destruct (getFamilyTree_ok db (wf_references db H)) as (data & G).
  exists data. split; [assumption | now apply getFamilyTree_base].
Qed.

Lemma db_family_reachable : reachable db_family.
Proof.
  assert (P : reachable db_people).
  { apply (reachable_step (mkDatabase [grandma; mother; father] [] 4 1));
      [| apply (step_createPerson _ _ 400 (input_of "Daughter") daughter);
         reflexivity].
    apply (reachable_step (mkDatabase [grandma; mother] [] 3 1));
      [| apply (step_createPerson _ _ 300 (input_of "Father") father);
         reflexivity].
    apply (reachable_step (mkDatabase [grandma] [] 2 1));
      [| apply (step_createPerson _ _ 200 (input_of "Mother") mother);
         reflexivity].
    apply (reachable_step emptyDB); [constructor |].
    apply (step_createPerson _ _ 100 (input_of "Grandma") grandma).
    reflexivity. }
  apply (reachable_step
           (mkDatabase (people db_people)
              [mkRelationship 1 1 2 500; mkRelationship 2 2 4 600] 5 3));
    [| apply (step_createRelationship _ _ 700 (mkRelationshipInput 3 4)
                (mkRelationship 3 3 4 700)); reflexivity].
  apply (reachable_step
           (mkDatabase (people db_people) [mkRelationship 1 1 2 500] 5 2));
    [| apply (step_createRelationship _ _ 600 (mkRelationshipInput 2 4)
                (mkRelationship 2 2 4 600)); reflexivity].
  apply (reachable_step db_people); [exact P |].
  apply (step_createRelationship _ _ 500 (mkRelationshipInput 1 2)
           (mkRelationship 1 1 2 500)).
  reflexivity.
Qed.

(** ** The sample family, computed *)

Example forest_family_built :
  treeStructure 3 data_family = Some forest_family.
Proof. reflexivity. Qed.

Example forest_family_depth : treeStructure 2 data_family = None.
Proof. reflexivity. Qed.

Example forest_empty : forall fuel, treeStructure fuel [] = Some [].
Proof. reflexivity. Qed.

Example message_parent_not_found :
  message (ParentNotFound 42) = "Parent with ID 42 does not exist"%string.
Proof. reflexivity. Qed.

Example getPerson_daughter :
  getPerson 4 db_family
  = Some (mkPersonWithRelationships daughter [mother; father] []).
Proof. reflexivity. Qed.

(** ** Creating people *)

Lemma step_seq_mono (db db' : Database) :
  step db db' ->
  people_id_seq db <= people_id_seq db'
  /\ relationships_id_seq db <= relationships_id_seq db'.
Proof.
  intros [now input p E | now input p E | i b E | now input r E
          | input b E].
  - injection E as <- _. simpl. lia.
  - unfold updatePerson in E.
    destruct (Nat.eqb (length (select_person db (up_id input))) 0);
      [discriminate |].
    injection E as <- _. simpl. lia.
  - unfold deletePerson in E.
    destruct (Nat.eqb (length (select_person db i)) 0); [discriminate |].
    injection E as <- _. simpl. lia.
  - unfold createRelationship in E.
    destruct (in_parent_id input =? in_child_id input); [discriminate |].
    destruct (Nat.eqb (length (select_person db (in_parent_id input))) 0);
      [discriminate |].
    destruct (Nat.eqb (length (select_person db (in_child_id input))) 0);
      [discriminate |].
    destruct (Nat.ltb 0 (length (select_relationship db _ _)));
      [discriminate |].
    destruct (Nat.ltb 0 (length (select_relationship db _ _)));
      [discriminate |].
    injection E as <- _. simpl. lia.
  - injection E as <- _. simpl. lia.
Qed.

Lemma steps_seq_mono (db db' : Database) :
  steps db db' ->
  people_id_seq db <= people_id_seq db'
  /\ relationships_id_seq db <= relationships_id_seq db'.
Proof.
  induction 1 as [db | db db' db'' _ IH S]; [lia |].
  apply step_seq_mono in S. lia.
Qed.

Lemma steps_wf (db db' : Database) : db_wf db -> steps db db' -> db_wf db'.
Proof.
  intros W. induction 1 as [db | db db' db'' _ IH S]; [assumption |].
  exact (step_wf db' db'' (IH W) S).
Qed.

Lemma createRelationship_ok_inv (now : Date) (input : RelationshipInput)
    (db db' : Database) (r : Relationship) :
  createRelationship now input db = Ok (db', r) ->
  in_parent_id input <> in_child_id input
  /\ has_person db (in_parent_id input)
  /\ has_person db (in_child_id input)
  /\ ~ has_edge db (in_parent_id input) (in_child_id input)
  /\ ~ has_edge db (in_child_id input) (in_parent_id input)
  /\ r = mkRelationship (relationships_id_seq db) (in_parent_id input)
           (in_child_id input) now
  /\ db' = mkDatabase (people db) (relationships db ++ [r])
             (people_id_seq db) (relationships_id_seq db + 1).
Proof.
  unfold createRelationship. intros E.
  destruct (in_parent_id input =? in_child_id input) eqn:N; [discriminate |].
  destruct (Nat.eqb (length (select_person db (in_parent_id input))) 0)
    eqn:Hp; [discriminate |].
  destruct (Nat.eqb (length (select_person db (in_child_id input))) 0)
    eqn:Hc; [discriminate |].
  destruct (Nat.ltb 0 (length (select_relationship db (in_parent_id input)
                                 (in_child_id input)))) eqn:Hd;
    [discriminate |].
  destruct (Nat.ltb 0 (length (select_relationship db (in_child_id input)
                                 (in_parent_id input)))) eqn:Hr;
    [discriminate |].
  injection E as <- <-.
  apply Z.eqb_neq in N. apply select_person_some in Hp, Hc.
  apply select_relationship_none in Hd, Hr. repeat split; assumption.
Qed.

(** X1.  Ids are never given out twice.  A person id that is stored at some
    moment is not the id of any person created later, whatever calls come in
    between, deletions included; the same holds of relationship ids. *)
Theorem ids_never_reused (db db' db'' : Database) :
  db_wf db -> steps db db' ->
  (forall now input q p,
     In p (people db) ->
     createPerson now input db' = Ok (db'', q) -> id q <> id p)
  /\ (forall now input r' r,
        In r (relationships db) ->
        createRelationship now input db' = Ok (db'', r') ->
        rel_id r' <> rel_id r).
Proof.
  intros W S. destruct (steps_seq_mono db db' S) as [M1 M2]. split.
  - intros now input q p Hp E. injection E as _ <-. simpl.
    apply (wf_people_seq db W) in Hp. lia.
  - intros now input r' r Hr E.
    destruct (createRelationship_ok_inv now input db' db'' r' E)
      as (_ & _ & _ & _ & _ & -> & _). simpl.
    apply (wf_relationships_seq db W) in Hr. lia.
Qed.

(** X1 on the sample people: Mother is deleted, and the next person
    created does not get her id. *)
Lemma ids_never_reused_witness :
  exists db' db'' q,
    deletePerson 2 db_people = Ok (db', true)
    /\ createPerson 900 (input_of "Aunt") db' = Ok (db'', q)
    /\ id q <> id mother.
Proof.
  eexists. eexists. eexists. split; [reflexivity |]. split; [reflexivity |].
  refine (proj1 (ids_never_reused db_people _ _ _ _) 900 (input_of "Aunt")
            _ mother _ eq_refl).
  - apply db_wfb_sound. reflexivity.
  - apply (steps_more db_people db_people); [constructor |].
    apply (step_deletePerson _ _ 2 true). reflexivity.
  - simpl. auto.
Defined.

Lemma step_ids_positive (db db' : Database) :
  ids_positive db -> step db db' -> ids_positive db'.
Proof.
  intros (S1 & S2 & P & R)
    [now input p E | now input p E | i b E | now input r E | input b E].
  - injection E as <- _. repeat split; simpl; try lia; try assumption.
    intros q Hq. apply in_app_iff in Hq.
    destruct Hq as [Hq | [<- | []]]; [now apply P | assumption].
  - unfold updatePerson in E.
    destruct (Nat.eqb (length (select_person db (up_id input))) 0);
      [discriminate |].
    injection E as <- _. repeat split; simpl; try assumption.
    intros q Hq.
    destruct (update_person_in _ (up_id input) db q Hq) as (q' & Hq' & E & _).
    rewrite E. now apply P.
  - unfold deletePerson in E.
    destruct (Nat.eqb (length (select_person db i)) 0); [discriminate |].
    injection E as <- _. repeat split; simpl; try assumption.
    + intros q Hq. apply filter_In in Hq. now apply P.
    + intros r Hr. apply filter_In in Hr. now apply R.
  - destruct (createRelationship_ok_inv now input db db' r E)
      as (_ & _ & _ & _ & _ & -> & ->).
    repeat split; simpl; try lia; try assumption.
    intros r Hr. apply in_app_iff in Hr.
    destruct Hr as [Hr | [<- | []]]; [now apply R | assumption].
  - injection E as <- _. repeat split; simpl; try assumption.
    intros r Hr. apply filter_In in Hr. now apply R.
Qed.

(** X2.  In every state reached from the empty database all stored ids are
    positive, and [createPerson] returns a person with a positive id and
    with [created_at] equal to [updated_at]. *)
Theorem reachable_ids_positive (db : Database) :
  reachable db ->
  ids_positive db
  /\ (forall now input db' p,
        createPerson now input db = Ok (db', p) ->
        0 < id p /\ created_at p = updated_at p).
Proof.
  intros H.
  assert (P : ids_positive db).
  { induction H as [| db db' _ IH S].
    - repeat split; simpl; try lia; intros ? [].
    - exact (step_ids_positive db db' IH S). }
  split; [exact P |].
  intros now input db' p E. injection E as _ <-. simpl.
  destruct P as (S1 & _). auto.
Qed.

(** X2 on the sample family. *)
Lemma reachable_ids_positive_witness :
  ids_positive db_family
  /\ exists db' p, createPerson 900 (input_of "Aunt") db_family = Ok (db', p)
                   /\ 0 < id p /\ created_at p = updated_at p.
Proof.
  destruct (reachable_ids_positive db_family db_family_reachable) as [P C].
  split; [exact P |].
  eexists. eexists. split; [reflexivity |].
  apply (C 900 (input_of "Aunt") _ _ eq_refl).
Defined.

Lemma Permutation_nil_eq {A} (l : list A) : Permutation l [] -> l = [].
Proof.
  intros H. apply Permutation_sym in H. now apply Permutation_nil.
Qed.

Lemma filter_nothing {A} (f : A -> bool) (l : list A) :
  (forall x, In x l -> f x = false) -> filter f l = [].
Proof.
  induction l as [|a l IH]; simpl; intros H; [reflexivity |].
  rewrite (H a (or_introl eq_refl)). apply IH.
  intros x Hx. apply H. now right.
Qed.

Lemma fresh_id_no_edge (db : Database) :
  db_wf db ->
  forall r, In r (relationships db) ->
            parent_id r <> people_id_seq db
            /\ child_id r <> people_id_seq db.
Proof.
  intros W r Hr. destruct (wf_references db W r Hr) as [Hp Hc].
  unfold has_person in Hp, Hc. rewrite in_map_iff in Hp, Hc.
  destruct Hp as (x & Ex & Hx). destruct Hc as (y & Ey & Hy).
  apply (wf_people_seq db W) in Hx, Hy. lia.
Qed.

(** X3.  A person just created is found by [getPerson] under the returned
    id, as created and with no parents and no children. *)
Theorem createPerson_getPerson (now : Date) (input : CreatePersonInput)
    (db db' : Database) (p : Person) :
  db_wf db ->
  createPerson now input db = Ok (db', p) ->
  getPerson (id p) db' = Some (mkPersonWithRelationships p [] []).
Proof.
  intros W E. injection E as <- <-.
  set (p := mkPerson (people_id_seq db) (cp_full_name input)
              (cp_birth_date input) (cp_death_date input)
              (cp_photo_url input) now now).
  set (db' := mkDatabase (people db ++ [p]) (relationships db)
                (people_id_seq db + 1) (relationships_id_seq db)).
  assert (S : select_person db' (id p) = [p]).
  { unfold select_person. simpl. rewrite filter_app. simpl.
    rewrite Z.eqb_refl, filter_nothing; [reflexivity |].
    intros q Hq. apply Z.eqb_neq. apply (wf_people_seq db W) in Hq. lia. }
  destruct (getPerson (id p) db') as [e|] eqn:G.
  - pose proof (getPerson_parents (id p) db' e G) as Pp.
    pose proof (getPerson_children (id p) db' e G) as Pc.
    rewrite filter_nothing in Pp, Pc.
    + apply Permutation_nil_eq in Pp, Pc.
      unfold getPerson in G. rewrite S in G. injection G as <-.
      simpl in Pp, Pc. rewrite copy_person_eq. simpl. rewrite Pp, Pc.
      reflexivity.
    + intros r Hr. apply Z.eqb_neq.
      now destruct (fresh_id_no_edge db W r Hr).
    + intros r Hr. apply Z.eqb_neq.
      now destruct (fresh_id_no_edge db W r Hr).
  - unfold getPerson in G. rewrite S in G. discriminate.
Qed.

(** X3 on the sample family. *)
Lemma createPerson_getPerson_witness :
  exists db' p,
    createPerson 900 (input_of "Aunt") db_family = Ok (db', p)
    /\ getPerson (id p) db' = Some (mkPersonWithRelationships p [] []).
Proof.
  eexists. eexists. split; [reflexivity |].
  apply (createPerson_getPerson 900 (input_of "Aunt") db_family);
    [exact db_family_wf | reflexivity].
Defined.

Lemma mapR_app {A B} (f : A -> Result B) (xs ys : list A)
    (xs' ys' : list B) :
  mapR f xs = Ok xs' -> mapR f ys = Ok ys' ->
  mapR f (xs ++ ys) = Ok (xs' ++ ys').
Proof.
  rewrite !mapR_Forall2. apply Forall2_app.
Qed.

Lemma find_app_some {A} (f : A -> bool) (l l' : list A) (x : A) :
  find f l = Some x -> find f (l ++ l') = Some x.
Proof.
  induction l as [|a l IH]; simpl; [discriminate |].
  destruct (f a); [trivial | exact IH].
Qed.

Lemma resolve_more_people (col : Relationship -> Z) (err : Z -> Error)
    (l l' : list Person) (rels : list Relationship) (qs : list Person) :
  mapR (fun rel =>
      match find (fun p => id p =? col rel) l with
      | Some q => Ok q
      | None => Throw (err (col rel))
      end) rels = Ok qs ->
  mapR (fun rel =>
      match find (fun p => id p =? col rel) (l ++ l') with
      | Some q => Ok q
      | None => Throw (err (col rel))
      end) rels = Ok qs.
Proof.
  rewrite !mapR_Forall2. intros F.
  eapply Forall2_impl; [| exact F]. intros rel q H. simpl in *.
  destruct (find (fun p => id p =? col rel) l) as [x|] eqn:Fx;
    [| discriminate].
  now rewrite (find_app_some _ l l' x Fx).
Qed.

(** X4.  Creating a person adds to the flat family tree one entry, for the
    new person, with no parents and no children, after the entries that
    were there, which do not change. *)
Theorem createPerson_getFamilyTree (now : Date) (input : CreatePersonInput)
    (db db' : Database) (p : Person)
    (data : list PersonWithRelationships) :
  db_wf db ->
  createPerson now input db = Ok (db', p) ->
  getFamilyTree db = Ok data ->
  getFamilyTree db' = Ok (data ++ [mkPersonWithRelationships p [] []]).
Proof.
  intros W E G. injection E as <- <-. unfold getFamilyTree in *. simpl.
  apply mapR_app.
  - rewrite mapR_Forall2 in *.
    eapply Forall2_impl; [| exact G]. intros person e H. simpl in *.
    destruct (mapR _ (filter (fun rel => parent_id rel =? id person) _))
      as [cs | e1] eqn:C; simpl in H; [| discriminate].
    destruct (mapR _ (filter (fun rel => child_id rel =? id person) _))
      as [ps | e2] eqn:P; simpl in H; [| discriminate].
    rewrite (resolve_more_people child_id TreeChildNotFound _ _ _ _ C).
    simpl.
    rewrite (resolve_more_people parent_id TreeParentNotFound _ _ _ _ P).
    exact H.
  - simpl. rewrite !filter_nothing; [reflexivity | |].
    + intros r Hr. apply Z.eqb_neq.
      now destruct (fresh_id_no_edge db W r Hr).
    + intros r Hr. apply Z.eqb_neq.
      now destruct (fresh_id_no_edge db W r Hr).
Qed.

(** X4 on the sample family. *)
Lemma createPerson_getFamilyTree_witness :
  exists db' p,
    createPerson 900 (input_of "Aunt") db_family = Ok (db', p)
    /\ getFamilyTree db'
       = Ok (data_family ++ [mkPersonWithRelationships p [] []]).
Proof.
  eexists. eexists. split; [reflexivity |].
  apply (createPerson_getFamilyTree 900 (input_of "Aunt") db_family);
    [exact db_family_wf | reflexivity | reflexivity].
Defined.

(** ** Creating and deleting relationships, one call after the other *)

Lemma getPerson_parents_iff (i : Z) (db : Database)
    (e : PersonWithRelationships) :
  getPerson i db = Some e ->
  forall q, In q (parents e) <-> In q (people db) /\ has_edge db (id q) i.
Proof.
  intros E q. rewrite (Permutation_In_iff _ _ q (getPerson_parents i db e E)).
  rewrite in_flat_map. unfold has_edge. split.
  - intros (r & Hr & Hq). apply filter_In in Hr, Hq.
    rewrite Z.eqb_eq in Hr, Hq. destruct Hr as [Hr Er].
    destruct Hq as [Hq Eq]. split; [assumption |]. exists r. auto.
  - intros (Hq & r & Hr & E1 & E2). exists r.
    rewrite !filter_In, !Z.eqb_eq. auto.
Qed.

Lemma getPerson_children_iff (i : Z) (db : Database)
    (e : PersonWithRelationships) :
  getPerson i db = Some e ->
  forall q, In q (children e) <-> In q (people db) /\ has_edge db i (id q).
Proof.
  intros E q.
  rewrite (Permutation_In_iff _ _ q (getPerson_children i db e E)).
  rewrite in_flat_map. unfold has_edge. split.
  - intros (r & Hr & Hq). apply filter_In in Hr, Hq.
    rewrite Z.eqb_eq in Hr, Hq. destruct Hr as [Hr Er].
    destruct Hq as [Hq Eq]. split; [assumption |]. exists r. auto.
  - intros (Hq & r & Hr & E1 & E2). exists r.
    rewrite !filter_In, !Z.eqb_eq. auto.
Qed.

Lemma has_edge_added (db : Database) (r : Relationship) (s1 s2 : Z) :
  has_edge (mkDatabase (people db) (relationships db ++ [r]) s1 s2)
    (parent_id r) (child_id r).
Proof.
  exists r. simpl. rewrite in_app_iff. simpl. auto.
Qed.

Lemma has_edge_kept (db : Database) (r : Relationship) (s1 s2 a b : Z) :
  has_edge db a b ->
  has_edge (mkDatabase (people db) (relationships db ++ [r]) s1 s2) a b.
Proof.
  intros (x & Hx & E). exists x. simpl. rewrite in_app_iff. auto.
Qed.

Lemma has_edge_after (db : Database) (r : Relationship) (s1 s2 a b : Z) :
  has_edge (mkDatabase (people db) (relationships db ++ [r]) s1 s2) a b ->
  has_edge db a b \/ (parent_id r = a /\ child_id r = b).
Proof.
  intros (x & Hx & E). simpl in Hx. apply in_app_iff in Hx.
  destruct Hx as [Hx | [<- | []]]; [left; now exists x | now right].
Qed.

(** X5.  After [createRelationship] succeeds, [getPerson] of the child
    lists the parent among its parents and [getPerson] of the parent lists
    the child among its children. *)
Theorem createRelationship_getPerson (now : Date) (input : RelationshipInput)
    (db db' : Database) (r : Relationship) :
  createRelationship now input db = Ok (db', r) ->
  (exists e P, getPerson (in_child_id input) db' = Some e
               /\ In P (parents e) /\ id P = in_parent_id input)
  /\ (exists e C, getPerson (in_parent_id input) db' = Some e
                  /\ In C (children e) /\ id C = in_child_id input).
Proof.
  intros E.
  destruct (createRelationship_ok_inv now input db db' r E)
    as (_ & Hp & Hc & _ & _ & Er & Ed).
  assert (Ep : people db' = people db) by (rewrite Ed; reflexivity).
  assert (He : has_edge db' (in_parent_id input) (in_child_id input)).
  { rewrite Ed, Er. apply (has_edge_added db). }
  unfold has_person in Hp, Hc. rewrite <- Ep in Hp, Hc.
  pose proof Hp as Hp'. pose proof Hc as Hc'.
  rewrite in_map_iff in Hp', Hc'.
  destruct Hp' as (P & EP & HP). destruct Hc' as (C & EC & HC).
  split.
  - destruct (getPerson_base (in_child_id input) db' Hc) as (e & G & _).
    exists e, P. split; [exact G |]. split; [| exact EP].
    apply (getPerson_parents_iff _ _ e G). split; [exact HP |].
    now rewrite EP.
  - destruct (getPerson_base (in_parent_id input) db' Hp) as (e & G & _).
    exists e, C. split; [exact G |]. split; [| exact EC].
    apply (getPerson_children_iff _ _ e G). split; [exact HC |].
    now rewrite EC.
Qed.

(** X5 on the sample people: Grandma becomes a parent of Father. *)
Lemma createRelationship_getPerson_witness :
  exists db' r,
    createRelationship 900 (mkRelationshipInput 1 3) db_family = Ok (db', r)
    /\ (exists e P, getPerson 3 db' = Some e /\ In P (parents e) /\ id P = 1)
    /\ (exists e C, getPerson 1 db' = Some e /\ In C (children e)
                    /\ id C = 3).
Proof.
  eexists. eexists. split; [reflexivity |].
  apply (createRelationship_getPerson 900 (mkRelationshipInput 1 3)
           db_family _ _ eq_refl).
Defined.

(** X6.  After [createRelationship] has stored an edge, a second call with
    the same pair fails with [DuplicateRelationship] and a call with the
    reversed pair fails with [CircularRelationship], at any later time. *)
Theorem createRelationship_again (now now' : Date)
    (input : RelationshipInput) (db db' : Database) (r : Relationship) :
  createRelationship now input db = Ok (db', r) ->
  createRelationship now' input db' = Throw DuplicateRelationship
  /\ createRelationship now'
       (mkRelationshipInput (in_child_id input) (in_parent_id input)) db'
     = Throw CircularRelationship.
Proof.
  intros E.
  destruct (createRelationship_ok_inv now input db db' r E)
    as (N & Hp & Hc & Hd & Hr & Er & Ed).
  assert (Hp' : has_person db' (in_parent_id input))
    by (rewrite Ed; exact Hp).
  assert (Hc' : has_person db' (in_child_id input))
    by (rewrite Ed; exact Hc).
  assert (He : has_edge db' (in_parent_id input) (in_child_id input)).
  { rewrite Ed, Er. apply (has_edge_added db). }
  assert (Hn : ~ has_edge db' (in_child_id input) (in_parent_id input)).
  { rewrite Ed. intros H. apply has_edge_after in H. rewrite Er in H.
    simpl in H. destruct H as [H | [H1 H2]]; [contradiction | congruence]. }
  apply select_person_some in Hp', Hc'.
  apply select_relationship_some in He.
  apply select_relationship_none in Hn.
  unfold createRelationship. simpl.
  assert (N1 : (in_parent_id input =? in_child_id input) = false)
    by now apply Z.eqb_neq.
  assert (N2 : (in_child_id input =? in_parent_id input) = false)
    by (apply Z.eqb_neq; congruence).
  rewrite N1, N2, Hp', Hc', He, Hn. split; reflexivity.
Qed.

(** X6 on the sample people. *)
Lemma createRelationship_again_witness :
  exists db' r,
    createRelationship 900 (mkRelationshipInput 1 3) db_family = Ok (db', r)
    /\ createRelationship 950 (mkRelationshipInput 1 3) db'
       = Throw DuplicateRelationship
    /\ createRelationship 950 (mkRelationshipInput 3 1) db'
       = Throw CircularRelationship.
Proof.
  eexists. eexists. split; [reflexivity |].
  apply (createRelationship_again 900 950 (mkRelationshipInput 1 3)
           db_family _ _ eq_refl).
Defined.

(** X7.  Deleting a relationship just created succeeds and restores both
    tables to what they were before the creation; only the sequence of
    relationship ids keeps its advance. *)
Theorem createRelationship_deleteRelationship (now : Date)
    (input : RelationshipInput) (db db' : Database) (r : Relationship) :
  createRelationship now input db = Ok (db', r) ->
  deleteRelationship input db'
  = Ok (mkDatabase (people db) (relationships db) (people_id_seq db)
          (relationships_id_seq db + 1), true).
Proof.
  intros E.
  destruct (createRelationship_ok_inv now input db db' r E)
    as (_ & _ & _ & Hd & _ & -> & ->).
  assert (H : forall x, In x (relationships db) ->
                (parent_id x =? in_parent_id input)
                && (child_id x =? in_child_id input) = false).
  { intros x Hx. apply andb_false_iff. rewrite !Z.eqb_neq.
    destruct (Z.eq_dec (parent_id x) (in_parent_id input)) as [E1|];
      [| now left].
    right. intros E2. apply Hd. now exists x. }
  unfold deleteRelationship, delete_relationship. simpl.
  rewrite !filter_app. simpl. rewrite !Z.eqb_refl. simpl.
  rewrite (filter_nothing _ _ H), app_nil_r, filter_all; [reflexivity |].
  intros x Hx. now rewrite (H x Hx).
Qed.

(** X7 on the sample family. *)
Lemma createRelationship_deleteRelationship_witness :
  exists db' r,
    createRelationship 900 (mkRelationshipInput 1 3) db_family = Ok (db', r)
    /\ deleteRelationship (mkRelationshipInput 1 3) db'
       = Ok (mkDatabase (people db_family) (relationships db_family) 5 5,
             true).
Proof.
  eexists. eexists. split; [reflexivity |].
  apply (createRelationship_deleteRelationship 900 (mkRelationshipInput 1 3)
           db_family _ _ eq_refl).
Defined.

Lemma filter_filter_negb {A} (f : A -> bool) (l : list A) :
  filter f (filter (fun x => negb (f x)) l) = []
  /\ filter (fun x => negb (f x)) (filter (fun x => negb (f x)) l)
     = filter (fun x => negb (f x)) l.
Proof.
  induction l as [|a l [IH1 IH2]]; simpl; [auto |].
  destruct (f a) eqn:Fa; simpl; [auto |].
  rewrite Fa. simpl. now rewrite IH1, IH2.
Qed.

(** X8.  Deleting the same pair a second time finds nothing: it returns
    [success = false] and changes nothing, whatever the first call found. *)
Theorem deleteRelationship_twice (input : RelationshipInput)
    (db db' : Database) (b : bool) :
  deleteRelationship input db = Ok (db', b) ->
  deleteRelationship input db' = Ok (db', false).
Proof.
  unfold deleteRelationship, delete_relationship. intros E.
  injection E as <- _. simpl.
  destruct (filter_filter_negb
              (fun r => (parent_id r =? in_parent_id input)
                        && (child_id r =? in_child_id input))
              (relationships db)) as [-> ->].
  reflexivity.
Qed.

(** X8 on the sample family. *)
Lemma deleteRelationship_twice_witness :
  exists db',
    deleteRelationship (mkRelationshipInput 2 4) db_family = Ok (db', true)
    /\ deleteRelationship (mkRelationshipInput 2 4) db' = Ok (db', false).
Proof.
  eexists. split; [reflexivity |].
  apply (deleteRelationship_twice (mkRelationshipInput 2 4) db_family _ true).
  reflexivity.
Defined.

Lemma edge_path_kept (db : Database) (r : Relationship) (s1 s2 a b : Z) :
  edge_path db a b ->
  edge_path (mkDatabase (people db) (relationships db ++ [r]) s1 s2) a b.
Proof.
  induction 1 as [a b H | a b c H _ IH].
  - apply edge_path_one. now apply has_edge_kept.
  - apply (edge_path_step _ a b c); [now apply has_edge_kept | exact IH].
Qed.

(** X9.  The validator looks at the two direct edges between the pair and
    at nothing else: an edge from [p] to [c] is accepted although [c] is
    already an ancestor of [p] through a longer chain, and the stored edges
    then contain a cycle through [p]. *)
Theorem createRelationship_longer_cycle (now : Date) (p c : Z)
    (db : Database) :
  p <> c -> has_person db p -> has_person db c ->
  ~ has_edge db p c -> ~ has_edge db c p ->
  edge_path db c p ->
  exists db' r,
    createRelationship now (mkRelationshipInput p c) db = Ok (db', r)
    /\ edge_path db' p p.
Proof.
  intros N Hp Hc Hd Hr Path.
  apply Z.eqb_neq in N. apply select_person_some in Hp, Hc.
  apply select_relationship_none in Hd, Hr.
  unfold createRelationship. simpl. rewrite N, Hp, Hc, Hd, Hr.
  eexists. eexists. split; [reflexivity |].
  apply (edge_path_step _ p c p).
  - apply (has_edge_added db (mkRelationship _ p c now)).
  - now apply edge_path_kept.
Qed.

(** X9 on the chain Grandma -> Mother -> Daughter: Daughter is accepted as
    a parent of Grandma. *)
Lemma createRelationship_longer_cycle_witness :
  exists db' r,
    createRelationship 900 (mkRelationshipInput 4 1) db_chain = Ok (db', r)
    /\ edge_path db' 4 4.
Proof.
  apply (createRelationship_longer_cycle 900 4 1 db_chain).
  - lia.
  - unfold has_person; simpl; lia.
  - unfold has_person; simpl; lia.
  - intros (r & Hr & H1 & H2). simpl in Hr.
    destruct Hr as [<- | [<- | []]]; simpl in *; lia.
  - intros (r & Hr & H1 & H2). simpl in Hr.
    destruct Hr as [<- | [<- | []]]; simpl in *; lia.
  - apply (edge_path_step _ 1 2 4).
    + exists (mkRelationship 1 1 2 500). simpl. auto.
    + apply edge_path_one. exists (mkRelationship 2 2 4 600). simpl. auto.
Defined.

Lemma NoDup_snoc_any {A} (l : list A) (x : A) :
  NoDup l -> ~ In x l -> NoDup (l ++ [x]).
Proof.
  intros N H. apply (Permutation_NoDup (Permutation_cons_append l x)).
  now constructor.
Qed.

Lemma edges_valid_same (db db' : Database) :
  relationships db' = relationships db -> edges_valid db -> edges_valid db'.
Proof.
  unfold edges_valid, has_edge. intros ->. trivial.
Qed.

Lemma edges_valid_filter (db db' : Database) (f : Relationship -> bool) :
  relationships db' = filter f (relationships db) ->
  edges_valid db -> edges_valid db'.
Proof.
  unfold edges_valid, has_edge. intros -> (V1 & V2 & V3).
  split; [| split].
  - intros r Hr. apply filter_In in Hr. now apply V1.
  - now apply NoDup_map_filter.
  - intros r Hr (x & Hx & E). apply filter_In in Hr, Hx.
    apply (V3 r); [tauto |]. exists x. tauto.
Qed.

Lemma step_edges_valid (db db' : Database) :
  edges_valid db -> step db db' -> edges_valid db'.
Proof.
  intros V [now input p E | now input p E | i b E | now input r E
            | input b E].
  - injection E as <- _. now apply (edges_valid_same db).
  - unfold updatePerson in E.
    destruct (Nat.eqb (length (select_person db (up_id input))) 0);
      [discriminate |].
    injection E as <- _. now apply (edges_valid_same db).
  - unfold deletePerson in E.
    destruct (Nat.eqb (length (select_person db i)) 0); [discriminate |].
    injection E as <- _.
    now apply (edges_valid_filter db _
                 (fun r => negb (parent_id r =? i) && negb (child_id r =? i))).
  - destruct (createRelationship_ok_inv now input db db' r E)
      as (N & _ & _ & Hd & Hr & Er & Ed).
    destruct V as (V1 & V2 & V3). rewrite Ed.
    assert (Ep : parent_id r = in_parent_id input) by now rewrite Er.
    assert (Ec : child_id r = in_child_id input) by now rewrite Er.
    split; [| split]; simpl.
    + intros x Hx. apply in_app_iff in Hx.
      destruct Hx as [Hx | [<- | []]]; [now apply V1 | congruence].
    + rewrite map_app. simpl. apply NoDup_snoc_any; [assumption |].
      intros H. apply in_map_iff in H. destruct H as (x & Ex & Hx).
      apply Hd. exists x. rewrite Ep, Ec in Ex. injection Ex as E1 E2.
      auto.
    + intros x Hx H. apply has_edge_after in H. apply in_app_iff in Hx.
      destruct H as [H | [H1 H2]]; destruct Hx as [Hx | [<- | []]].
      * exact (V3 x Hx H).
      * apply Hr. now rewrite <- Ep, <- Ec.
      * apply Hr. exists x. rewrite <- Ep, <- Ec. auto.
      * congruence.
  - injection E as <- _.
    now apply (edges_valid_filter db _
                 (fun r => negb ((parent_id r =? in_parent_id input)
                                 && (child_id r =? in_child_id input)))).
Qed.

(** X10.  Every mutating handler keeps the stored edges free of self
    edges, of repeated pairs and of reversed pairs, so every state reached
    from the empty database is free of them. *)
Theorem validator_invariants :
  (forall db db', edges_valid db -> step db db' -> edges_valid db')
  /\ (forall db, reachable db -> edges_valid db).
Proof.
  split; [exact step_edges_valid |].
  induction 1 as [| db db' _ IH S].
  - split; [| split]; simpl; [intros ? [] | constructor | intros ? []].
  - exact (step_edges_valid db db' IH S).
Qed.

(** X10 on the sample family. *)
Lemma validator_invariants_witness : edges_valid db_family.
Proof.
  apply (proj2 validator_invariants db_family). exact db_family_reachable.
Defined.

(** X11.  Every mutating handler keeps the constraints of the schema:
    unique ids in both tables, both ends of every edge among the people, and
    both sequences ahead of the stored ids.  So does every state reached
    from the empty database. *)
Theorem handlers_preserve_schema :
  (forall db db', db_wf db -> step db db' -> db_wf db')
  /\ (forall db, reachable db -> db_wf db).
Proof.
  split; [exact step_wf | exact reachable_wf].
Qed.

(** X11 on the sample family: deleting Mother keeps the constraints. *)
Lemma handlers_preserve_schema_witness :
  exists db', deletePerson 2 db_family = Ok (db', true) /\ db_wf db'.
Proof.
  eexists. split; [reflexivity |].
  apply (proj1 handlers_preserve_schema db_family).
  - exact db_family_wf.
  - apply (step_deletePerson _ _ 2 true). reflexivity.
Defined.

(** ** Reading after writing *)

Lemma deletePerson_ok_inv (x : Z) (db db' : Database) (b : bool) :
  deletePerson x db = Ok (db', b) ->
  has_person db x /\ db' = delete_person x db /\ b = true.
Proof.
  unfold deletePerson.
  destruct (Nat.eqb (length (select_person db x)) 0) eqn:S; [discriminate |].
  intros E. injection E as <- <-. apply select_person_some in S. auto.
Qed.

(** X12.  After [deletePerson] succeeds the person is gone from every
    read: [getPerson] returns [null] for the id, and the flat family tree is
    still returned and names the id nowhere, neither as an entry nor among
    the parents or the children of an entry. *)
Theorem deletePerson_then_read (x : Z) (db db' : Database) (b : bool) :
  db_wf db ->
  deletePerson x db = Ok (db', b) ->
  getPerson x db' = None
  /\ exists data,
       getFamilyTree db' = Ok data
       /\ forall e, In e data ->
            id (base e) <> x
            /\ (forall q, In q (parents e) -> id q <> x)
            /\ (forall q, In q (children e) -> id q <> x).
Proof.
  intros W E. destruct (deletePerson_ok_inv x db db' b E) as (_ & -> & _).
  assert (Gone : forall q, In q (people (delete_person x db)) -> id q <> x).
  { intros q Hq. simpl in Hq. apply filter_In in Hq.
    destruct Hq as [_ Hq]. now apply negb_true_iff, Z.eqb_neq in Hq. }
  split.
  - unfold getPerson.
    replace (select_person (delete_person x db) x) with (@nil Person);
      [reflexivity |].
    symmetry. apply filter_nothing. intros q Hq. apply Z.eqb_neq.
    now apply Gone.
  - pose proof (delete_person_wf x db W) as W'.
    destruct (getFamilyTree_ok _ (wf_references _ W')) as (data & G).
    exists data. split; [exact G |]. intros e He.
    destruct (getFamilyTree_resolved _ data e G He) as [Hb R].
    destruct (resolved_parents _ e R) as (_ & P & _).
    destruct (resolved_children _ e R) as (_ & C & _).
    split; [now apply Gone |]. split; intros q Hq; apply Gone.
    + now destruct (P q Hq).
    + now destruct (C q Hq).
Qed.

(** X12 on the sample family, deleting Mother. *)
Lemma deletePerson_then_read_witness :
  exists db',
    deletePerson 2 db_family = Ok (db', true)
    /\ getPerson 2 db' = None
    /\ exists data, getFamilyTree db' = Ok data
                    /\ forall e, In e data -> id (base e) <> 2.
Proof.
  eexists. split; [reflexivity |].
  destruct (deletePerson_then_read 2 db_family _ true db_family_wf eq_refl)
    as (G & data & F & H).
  split; [exact G |]. exists data. split; [exact F |].
  intros e He. now destruct (H e He).
Defined.

Lemma resolved_by_edge (db : Database) (col : Relationship -> Z)
    (rels : list Relationship) (qs : list Person) :
  NoDup (map id (people db)) ->
  Forall2 (fun rel q => find (fun p => id p =? col rel) (people db) = Some q)
    rels qs ->
  flat_map (fun r => filter (fun p => id p =? col r) (people db)) rels = qs.
Proof.
  intros N. induction 1 as [|r q rels qs F _ IH]; simpl; [reflexivity |].
  apply find_person_some in F. destruct F as [Hq <-].
  now rewrite (unique_row _ q N Hq), IH.
Qed.

(** X13.  [getPerson] and [getFamilyTree] agree: for every entry of the
    flat family tree, [getPerson] of its id returns the same person with the
    same parents and the same children, up to their order. *)
Theorem getPerson_agrees_with_getFamilyTree (db : Database)
    (data : list PersonWithRelationships) (e : PersonWithRelationships) :
  NoDup (map id (people db)) ->
  getFamilyTree db = Ok data -> In e data ->
  exists e',
    getPerson (id (base e)) db = Some e'
    /\ base e' = base e
    /\ Permutation (parents e') (parents e)
    /\ Permutation (children e') (children e).
Proof.
  intros N G He.
  destruct (getFamilyTree_resolved db data e G He) as [Hb [RP RC]].
  destruct (getPerson_base (id (base e)) db (in_map id _ _ Hb))
    as (e' & G' & Hb' & Ei).
  exists e'. split; [exact G' |]. split; [| split].
  - exact (same_id_same_person db N _ _ Hb' Hb Ei).
  - rewrite (getPerson_parents _ db e' G').
    now rewrite (resolved_by_edge db parent_id _ _ N RP).
  - rewrite (getPerson_children _ db e' G').
    now rewrite (resolved_by_edge db child_id _ _ N RC).
Qed.

(** X13 on the sample family, for the entry of Daughter. *)
Lemma getPerson_agrees_with_getFamilyTree_witness :
  exists e',
    getPerson 4 db_family = Some e'
    /\ base e' = daughter
    /\ Permutation (parents e') [mother; father]
    /\ Permutation (children e') [].
Proof.
  apply (getPerson_agrees_with_getFamilyTree db_family data_family
           f_daughter).
  - apply nodupb_NoDup. reflexivity.
  - reflexivity.
  - simpl. auto.
Defined.

(** X14.  The two lists of the flat family tree mirror each other: one
    person is among the parents of another exactly when the second is among
    the children of the first. *)
Theorem getFamilyTree_mirror (db : Database)
    (data : list PersonWithRelationships)
    (ex eq : PersonWithRelationships) :
  NoDup (map id (people db)) ->
  getFamilyTree db = Ok data -> In ex data -> In eq data ->
  (In (base eq) (parents ex) <-> In (base ex) (children eq)).
Proof.
  intros N G Hx Hq.
  destruct (getFamilyTree_resolved db data ex G Hx) as [Bx Rx].
  destruct (getFamilyTree_resolved db data eq G Hq) as [Bq Rq].
  destruct (resolved_parents db ex Rx) as (_ & P1 & P2).
  destruct (resolved_children db eq Rq) as (_ & C1 & C2).
  split; intros H.
  - apply (C2 N _ Bx). now destruct (P1 _ H).
  - apply (P2 N _ Bq). now destruct (C1 _ H).
Qed.

(** X14 on the sample family: Mother and Daughter. *)
Lemma getFamilyTree_mirror_witness :
  In mother (parents f_daughter) <-> In daughter (children f_mother).
Proof.
  apply (getFamilyTree_mirror db_family data_family f_daughter f_mother).
  - apply nodupb_NoDup. reflexivity.
  - reflexivity.
  - simpl. auto.
  - simpl. auto.
Defined.

(** X15.  [updatePerson] adds no row, removes none and renumbers none:
    after a successful call the table holds, in some order, the same ids
    with the same creation times as before, all edges are as before, every
    person with another id is untouched, and the returned row is in the table
    and carries the requested id. *)
Theorem updatePerson_keeps_rows (now : Date) (input : UpdatePersonInput)
    (db db' : Database) (result : option Person) :
  updatePerson now input db = Ok (db', result) ->
  Permutation (map (fun q => (id q, created_at q)) (people db'))
    (map (fun q => (id q, created_at q)) (people db))
  /\ relationships db' = relationships db
  /\ (forall q, id q <> up_id input ->
                (In q (people db') <-> In q (people db)))
  /\ exists p, result = Some p /\ id p = up_id input /\ In p (people db').
Proof.
  unfold updatePerson.
  destruct (Nat.eqb (length (select_person db (up_id input))) 0) eqn:S;
    [discriminate |].
  intros E. injection E as <- <-.
  set (u := mkUpdateData (up_full_name input) (up_birth_date input)
              (up_death_date input) (up_photo_url input) (Some now)).
  pose proof (update_person_rows u (up_id input) db) as R.
  split; [| split; [reflexivity |]].
  - rewrite (Permutation_map _ R), map_map.
    apply Permutation_refl'. apply map_ext. intros p.
    now destruct (id p =? up_id input).
  - split.
    + intros q Hq. rewrite (Permutation_In_iff _ _ q R), in_map_iff. split.
      * intros (q' & E & Hq'). destruct (id q' =? up_id input) eqn:I.
        -- apply Z.eqb_eq in I. subst q. simpl in Hq. contradiction.
        -- now subst q'.
      * intros Hin. exists q. split; [| assumption].
        apply Z.eqb_neq in Hq. now rewrite Hq.
    + unfold select_person in S. simpl.
      destruct (filter (fun p => id p =? up_id input) (people db))
        as [|p l] eqn:F; [discriminate |].
      assert (Hp : In p (filter (fun p => id p =? up_id input) (people db)))
        by (rewrite F; now left).
      apply filter_In in Hp. destruct Hp as [Hp I].
      eexists. split; [reflexivity |]. split.
      * simpl. now apply Z.eqb_eq.
      * apply in_app_iff. right. simpl. now left.
Qed.

(** X15 on the sample family: renaming Mother. *)
Lemma updatePerson_keeps_rows_witness :
  exists db' result,
    updatePerson 900 (mkUpdatePersonInput 2 (Some "Mum"%string) None None None)
      db_family = Ok (db', result)
    /\ Permutation (map (fun q => (id q, created_at q)) (people db'))
         [(1, 100); (2, 200); (3, 300); (4, 400)]
    /\ relationships db' = relationships db_family.
Proof.
  eexists. eexists. split; [reflexivity |].
  destruct (updatePerson_keeps_rows 900
              (mkUpdatePersonInput 2 (Some "Mum"%string) None None None)
              db_family _ _ eq_refl) as (H1 & H3 & _).
  split; [exact H1 | exact H3].
Defined.

(** ** More on the assembled forest *)

Lemma Forall2_map_self {A B} (R : A -> B -> Prop) (g : A -> B)
    (l : list A) :
  (forall x, In x l -> R x (g x)) -> Forall2 R l (map g l).
Proof.
  induction l as [|a l IH]; simpl; intros H; constructor.
  - apply H. now left.
  - apply IH. intros x Hx. apply H. now right.
Qed.

(** X16.  With people and no relationship, every person is a root of the
    forest, a leaf at level 0, in table order: the forest is empty only when
    there are no people. *)
Theorem treeStructure_no_relationships (db : Database) (fuel : nat) :
  relationships db = [] ->
  let data := map (fun p => mkPersonWithRelationships p [] []) (people db) in
  getFamilyTree db = Ok data
  /\ treeStructure (S fuel) data
     = Some (map (fun e => mkTreeNode e [] 0) data).
Proof.
  intros H data. split.
  - unfold getFamilyTree. apply mapR_Forall2. apply Forall2_map_self.
    intros person _. rewrite H. reflexivity.
  - unfold treeStructure.
    destruct (Nat.eqb (length data) 0) eqn:L.
    + destruct data; [reflexivity | discriminate].
    + apply mapO_Forall2. rewrite filter_all.
      * apply Forall2_map_self. intros e He. unfold data in He.
        apply in_map_iff in He. destruct He as (q & <- & _). reflexivity.
      * intros e He. unfold data in He.
        apply in_map_iff in He. destruct He as (q & <- & _). reflexivity.
Qed.

(** X16 on the four sample people before any relationship. *)
Lemma treeStructure_no_relationships_witness :
  exists data forest,
    getFamilyTree db_people = Ok data
    /\ treeStructure 1 data = Some forest
    /\ map (fun t => base (person t)) forest
       = [grandma; mother; father; daughter]
    /\ Forall (fun t => tn_children t = [] /\ level t = 0) forest.
Proof.
  destruct (treeStructure_no_relationships db_people 0 eq_refl) as [G T].
  eexists. eexists. split; [exact G |]. split; [exact T |].
  split; [reflexivity |]. repeat constructor.
Defined.

Lemma in_tree_level (data : list PersonWithRelationships) (n t : TreeNode) :
  in_tree n t ->
  forall fuel p lvl,
    buildTree fuel data p lvl = Some t -> lvl <= level n.
Proof.
  induction 1 as [| t c Hc Hn IH]; intros fuel p lvl B.
  - destruct (buildTree_node data fuel p lvl n B) as (_ & -> & _). lia.
  - destruct (buildTree_node data fuel p lvl t B)
      as (_ & _ & fuel' & _ & F).
    destruct (Forall2_right _ _ _ c F Hc) as (q & _ & Bc).
    specialize (IH fuel' q (lvl + 1) Bc). lia.
Qed.

(** X17.  The assembler returns the empty forest exactly when no entry of
    its input is without parents, whatever the depth allowed: the people of
    a cycle that no root reaches are left out of the forest, and the
    recursion is never entered for them. *)
Theorem treeStructure_empty_iff (fuel : nat)
    (data : list PersonWithRelationships) :
  treeStructure fuel data = Some [] <->
  (forall e, In e data -> parents e <> []).
Proof.
  split.
  - intros T e He Hp. apply treeStructure_roots in T.
    assert (Hr : In e (filter (fun q => Nat.eqb (length (parents q)) 0)
                         data)).
    { apply filter_In. split; [assumption | now rewrite Hp]. }
    destruct (Forall2_left _ _ _ e T Hr) as (t & [] & _).
  - intros H. unfold treeStructure.
    destruct (Nat.eqb (length data) 0); [reflexivity |].
    rewrite filter_nothing; [reflexivity |].
    intros e He. specialize (H e He).
    destruct (parents e); [contradiction | reflexivity].
Qed.

(** X17 on a cycle of three with nobody above it. *)
Lemma treeStructure_empty_iff_witness :
  treeStructure 7 data_loop = Some [].
Proof.
  apply (treeStructure_empty_iff 7 data_loop).
  intros e He. simpl in He.
  destruct He as [<- | [<- | [<- | []]]]; discriminate.
Defined.

(** X18.  Every node of a returned forest carries an entry of the input,
    at a level that is its depth below the root: levels start at 0 and a
    child node is one level below its parent node.  The child nodes of a
    node are, in order, the entries found in the input for the children of
    its person; a child with no entry in the input gets no node. *)
Theorem forest_nodes (fuel : nat) (data : list PersonWithRelationships)
    (forest : list TreeNode) (n : TreeNode) :
  treeStructure fuel data = Some forest -> in_forest n forest ->
  In (person n) data
  /\ 0 <= level n
  /\ map person (tn_children n) = found_children data (person n)
  /\ Forall (fun m => level m = level n + 1) (tn_children n).
Proof.
  intros T Hn.
  destruct (in_forest_built data fuel forest n T Hn)
    as (Hd & fuel' & lvl' & B).
  split; [exact Hd |]. split; [| split].
  - destruct Hn as (t & Ht & Hn).
    destruct (Forall2_right _ _ _ t (treeStructure_roots data fuel forest T)
                Ht) as (p & _ & Bt).
    exact (in_tree_level data n t Hn fuel p 0 Bt).
  - destruct (buildTree_node data fuel' (person n) lvl' n B)
      as (_ & _ & f & _ & F).
    apply (Forall2_map_eq _ (fun q => q) person _ _
             (fun q m Bm => proj1 (buildTree_node data f q (lvl' + 1) m Bm)))
      in F.
    now rewrite map_id in F.
  - destruct (buildTree_node data fuel' (person n) lvl' n B)
      as (_ & El & f & _ & F).
    apply Forall_forall. intros m Hm.
    destruct (Forall2_right _ _ _ m F Hm) as (q & _ & Bm).
    destruct (buildTree_node data f q (lvl' + 1) m Bm) as (_ & -> & _).
    now rewrite El.
Qed.

(** X18 on the sample family, for the node of Mother. *)
Lemma forest_nodes_witness :
  let n := mkTreeNode f_mother [mkTreeNode f_daughter [] 2] 1 in
  In (person n) data_family /\ 0 <= level n
  /\ map person (tn_children n) = [f_daughter]
  /\ Forall (fun m => level m = level n + 1) (tn_children n).
Proof.
  apply (forest_nodes 3 data_family forest_family).
  - reflexivity.
  - eexists. split; [left; reflexivity |].
    eapply in_tree_child; [left; reflexivity | constructor].
Defined.

(** ** The client's list of people *)

(** X19.  The list of people that [App] keeps follows the table of the
    server.  Applied to the list that [getPeople] returned before a
    successful [createPerson] or [deletePerson], the updater of the matching
    handler gives the list that [getPeople] returns after it.  After a
    successful [updatePerson] the updater gives the rows that [getPeople]
    then returns, the updated row kept at its place in the client's list
    whatever its place in the table. *)
Theorem client_people_in_sync :
  (forall now input db db' p,
     createPerson now input db = Ok (db', p) ->
     people_created p (getPeople db) = getPeople db')
  /\ (forall now input db db' p,
        NoDup (map id (people db)) ->
        updatePerson now input db = Ok (db', Some p) ->
        Permutation (people_updated p (getPeople db)) (getPeople db'))
  /\ (forall x db db' b,
        deletePerson x db = Ok (db', b) ->
        people_deleted x (getPeople db) = getPeople db').
Proof.
  split; [| split].
  - intros now input db db' p E. injection E as <- <-. reflexivity.
  - intros now input db db' p N. unfold updatePerson.
    destruct (Nat.eqb (length (select_person db (up_id input))) 0) eqn:S;
      [discriminate |].
    intros E. injection E as <- E. unfold getPeople, people_updated.
    set (u := mkUpdateData (up_full_name input) (up_birth_date input)
                (up_death_date input) (up_photo_url input) (Some now)) in *.
    rewrite (update_person_rows u (up_id input) db).
    unfold select_person in S. simpl in E.
    destruct (filter (fun q => id q =? up_id input) (people db))
      as [|p0 l] eqn:F; [discriminate |].
    simpl in E. injection E as <-.
    assert (Hp : In p0 (filter (fun q => id q =? up_id input) (people db)))
      by (rewrite F; now left).
    apply filter_In in Hp. destruct Hp as [Hp I]. apply Z.eqb_eq in I.
    apply Permutation_refl'.
    apply map_ext_in. intros q Hq. simpl. rewrite I.
    destruct (id q =? up_id input) eqn:Q; [| reflexivity].
    apply Z.eqb_eq in Q. f_equal. symmetry.
    apply (same_id_same_person db N); [assumption .. | congruence].
  - intros x db db' b E.
    now destruct (deletePerson_ok_inv x db db' b E) as (_ & -> & _).
Qed.

(** X19 on the sample family: the list after renaming Mother. *)
Lemma client_people_in_sync_witness :
  exists db' p,
    updatePerson 900 (mkUpdatePersonInput 2 (Some "Mum"%string) None None None)
      db_family = Ok (db', Some p)
    /\ Permutation (people_updated p (getPeople db_family)) (getPeople db').
Proof.
  eexists. eexists. split; [reflexivity |].
  apply (proj1 (proj2 client_people_in_sync) 900
           (mkUpdatePersonInput 2 (Some "Mum"%string) None None None)
           db_family).
  - apply nodupb_NoDup. reflexivity.
  - reflexivity.
Defined.

(** ** Ages *)

(** X20.  [calculateAge] returns the empty string without a birth date.
    With one it prints the number [k] of whole years between the birth and
    the end date (the death, or now for the living): the [k]-th anniversary
    of the birth is on or before the end date in the calendar and the next
    one is after it.  When the end date is not before the birth in the
    calendar, [k] is not negative. *)
Theorem calculateAge_whole_years (getFullYear getMonth getDate : Date -> Z)
    (birth : Date) (deathDate : option Date) (now : Date) :
  let endDate := match deathDate with Some d => d | None => now end in
  let day := calendar_day getFullYear getMonth getDate in
  let birthday := anniversary getFullYear getMonth getDate birth in
  calculateAge getFullYear getMonth getDate None deathDate now = EmptyString
  /\ exists k,
       calculateAge getFullYear getMonth getDate (Some birth) deathDate now
       = string_of_Z k
       /\ calendar_le (birthday k) (day endDate)
       /\ ~ calendar_le (birthday (k + 1)) (day endDate)
       /\ (calendar_le (day birth) (day endDate) -> 0 <= k).
Proof.
  intros endDate day birthday. split; [reflexivity |].
  unfold calculateAge. fold endDate.
  unfold birthday, day, anniversary, calendar_day, calendar_le.
  clearbody endDate. clear day birthday.
  generalize (getFullYear endDate) (getFullYear birth) (getMonth endDate)
    (getMonth birth) (getDate endDate) (getDate birth).
  intros ey bY em bm ed bd.
  destruct ((em - bm <? 0) || ((em - bm =? 0) && (ed <? bd))) eqn:C.
  - exists (ey - bY - 1).
    split; [reflexivity |].
    apply orb_true_iff in C. rewrite andb_true_iff in C.
    rewrite !Z.ltb_lt, Z.eqb_eq in C. cbn. lia.
  - exists (ey - bY).
    split; [reflexivity |].
    apply orb_false_iff in C. rewrite andb_false_iff in C.
    rewrite !Z.ltb_ge, Z.eqb_neq in C. cbn. lia.
Qed.

(** X20 on the toy calendar: born on day 100, dead thirty years and five
    days later. *)
Lemma calculateAge_whole_years_witness :
  exists k,
    calculateAge toy_year toy_month toy_date (Some 100) (Some 10905) 0
    = string_of_Z k
    /\ 0 <= k.
Proof.
  destruct (calculateAge_whole_years toy_year toy_month toy_date 100
              (Some 10905) 0) as (_ & k & E & _ & _ & H).
  exists k. split; [exact E |]. apply H. left. reflexivity.
Defined.

Example calculateAge_toy :
  calculateAge toy_year toy_month toy_date (Some 100) (Some 10905) 0
  = "30"%string
  /\ calculateAge toy_year toy_month toy_date (Some 100) (Some 10899) 0
     = "29"%string
  /\ calculateAge toy_year toy_month toy_date None (Some 10899) 0
     = EmptyString.
Proof. repeat split. Qed.

(** ** More reading after writing *)

(** X21.  After [deleteRelationship], whatever it found, [getPerson] of the
    child lists nobody with the parent's id among the parents, [getPerson] of
    the parent lists nobody with the child's id among the children, and the
    people are as before. *)
Theorem deleteRelationship_getPerson (input : RelationshipInput)
    (db db' : Database) (b : bool) :
  deleteRelationship input db = Ok (db', b) ->
  getPeople db' = getPeople db
  /\ (forall e q, getPerson (in_child_id input) db' = Some e ->
                  In q (parents e) -> id q <> in_parent_id input)
  /\ (forall e q, getPerson (in_parent_id input) db' = Some e ->
                  In q (children e) -> id q <> in_child_id input).
Proof.
  unfold deleteRelationship, delete_relationship. intros E.
  injection E as <- _.
  set (db' := mkDatabase (people db) _ (people_id_seq db)
                (relationships_id_seq db)).
  assert (Gone : ~ has_edge db' (in_parent_id input) (in_child_id input)).
  { intros (r & Hr & E1 & E2). simpl in Hr. apply filter_In in Hr.
    destruct Hr as [_ Hr]. apply negb_true_iff, andb_false_iff in Hr.
    rewrite !Z.eqb_neq in Hr. tauto. }
  split; [reflexivity |]. split; intros e q G Hq Eq; apply Gone.
  - apply (getPerson_parents_iff _ db' e G) in Hq. now rewrite <- Eq.
  - apply (getPerson_children_iff _ db' e G) in Hq. now rewrite <- Eq.
Qed.

(** X21 on the sample family: the edge Mother -> Daughter deleted. *)
Lemma deleteRelationship_getPerson_witness :
  exists db',
    deleteRelationship (mkRelationshipInput 2 4) db_family = Ok (db', true)
    /\ forall e q, getPerson 4 db' = Some e -> In q (parents e) -> id q <> 2.
Proof.
  eexists. split; [reflexivity |].
  apply (deleteRelationship_getPerson (mkRelationshipInput 2 4) db_family
           _ true eq_refl).
Defined.

Lemma Permutation_filter_same {A} (f : A -> bool) (l l' : list A) :
  Permutation l l' -> Permutation (filter f l) (filter f l').
Proof.
  induction 1 as [| x l l' _ IH | x y l | l l' l'' _ IH1 _ IH2]; simpl.
  - constructor.
  - destruct (f x); [now constructor | assumption].
  - destruct (f x), (f y); try reflexivity. apply perm_swap.
  - now transitivity (filter f l').
Qed.

Lemma ids_by_edge (col : Relationship -> Z) (l l' : list Person)
    (rels : list Relationship) :
  Permutation (map id l') (map id l) ->
  Permutation
    (map id (flat_map (fun r => filter (fun p => id p =? col r) l') rels))
    (map id (flat_map (fun r => filter (fun p => id p =? col r) l) rels)).
Proof.
  intros H. induction rels as [|r rels IH]; simpl; [constructor |].
  rewrite !map_app. apply Permutation_app; [| exact IH].
  rewrite !(map_filter_base id (fun p => id p =? col r)
              (fun z => z =? col r)) by reflexivity.
  now apply Permutation_filter_same.
Qed.

(** X22.  After [updatePerson] succeeds, [getPerson] of the id returns the
    row that the update returned; its parents and its children have the ids
    they had before the update, as many times each, and are rows of the
    table as the update left it. *)
Theorem updatePerson_getPerson (now : Date) (input : UpdatePersonInput)
    (db db' : Database) (p : Person) (e0 : PersonWithRelationships) :
  updatePerson now input db = Ok (db', Some p) ->
  getPerson (up_id input) db = Some e0 ->
  exists e,
    getPerson (up_id input) db' = Some e
    /\ base e = p
    /\ Permutation (map id (parents e)) (map id (parents e0))
    /\ Permutation (map id (children e)) (map id (children e0))
    /\ (forall q, In q (parents e) \/ In q (children e) ->
                  In q (people db')).
Proof.
  unfold updatePerson.
  destruct (Nat.eqb (length (select_person db (up_id input))) 0) eqn:S;
    [discriminate |].
  intros E G0. injection E as <- E.
  set (u := mkUpdateData (up_full_name input) (up_birth_date input)
              (up_death_date input) (up_photo_url input) (Some now)) in *.
  set (db' := fst (update_person u (up_id input) db)).
  assert (Sel : select_person db' (up_id input)
                = map (set_columns u) (select_person db (up_id input))).
  { unfold select_person. simpl. rewrite filter_app.
    destruct (filter_filter_negb (fun q => id q =? up_id input) (people db))
      as [-> _]. simpl.
    rewrite <- (map_filter_base (set_columns u)
                  (fun q => id q =? up_id input)
                  (fun q => id q =? up_id input)) by reflexivity.
    f_equal. apply filter_all. intros q Hq. apply filter_In in Hq. tauto. }
  destruct (getPerson (up_id input) db') as [e|] eqn:G.
  - exists e. split; [exact G |].
    pose proof (update_person_ids u (up_id input) db) as Ids.
    split; [| split; [| split]].
    + unfold getPerson in G. rewrite Sel in G. unfold select_person in *.
      simpl in E.
      destruct (filter (fun q => id q =? up_id input) (people db))
        as [|p0 l]; [discriminate |].
      simpl in E, G. injection E as <-. injection G as <-. simpl.
      apply copy_person_eq.
    + rewrite (getPerson_parents _ db' e G), (getPerson_parents _ db e0 G0).
      now apply ids_by_edge.
    + rewrite (getPerson_children _ db' e G), (getPerson_children _ db e0 G0).
      now apply ids_by_edge.
    + intros q [Hq | Hq].
      * now apply (getPerson_parents_iff _ db' e G) in Hq.
      * now apply (getPerson_children_iff _ db' e G) in Hq.
  - unfold getPerson in G. rewrite Sel in G. unfold select_person in *.
    destruct (filter (fun q => id q =? up_id input) (people db));
      discriminate.
Qed.

(** X22 on the sample family: Daughter renamed keeps her two parents. *)
Lemma updatePerson_getPerson_witness :
  exists db' p e,
    updatePerson 900 (mkUpdatePersonInput 4 (Some "Girl"%string) None None None)
      db_family = Ok (db', Some p)
    /\ getPerson 4 db' = Some e
    /\ base e = p
    /\ Permutation (map id (parents e)) [2; 3].
Proof.
  destruct (updatePerson_getPerson 900
              (mkUpdatePersonInput 4 (Some "Girl"%string) None None None)
              db_family _ _ _ eq_refl eq_refl) as (e & G & B & P & _).
  eexists. eexists. exists e. split; [reflexivity |].
  split; [exact G |]. split; [exact B | exact P].
Defined.
